(** * Maze levels with patrolling obstacles: Level.js and sketch.js

    A shallow embedding of the [Level] class (grid parsing, tile queries,
    obstacle life cycle, rectangle collision), of its inner class
    [MovingObstacle] and of the level loading of [setup] in sketch.js,
    followed by the properties proved about them.

    Numbers.  Pixel quantities are JavaScript numbers.  They are modelled
    as exact rationals [Q]: the decimal literals 0.8 and 1.8 are the
    rationals 8/10 and 18/10 and no rounding takes place.  Row and column
    indices are array indices and are modelled as [nat]; [num] injects
    them into [Q] where the code mixes them with pixel arithmetic.  Tile
    codes inside a grid are integers ([Z]) or strings.

    The code computes in IEEE doubles, where sums and products round.  The
    properties below are therefore stated through what rounding keeps:
    the outcome of the code's own comparisons, assignments of a bound, and
    equalities between two evaluations of one and the same expression.
    None of them equates a computed value with a rearranged or accumulated
    expression (such as [right - left] with [0.8 * ts], or [n] steps with
    [n * speed]), which holds of rationals only.  Where a property bounds
    a computed value by another expression (the corridor of an obstacle,
    the distance of two centers), the bound is exact for rationals and
    holds of doubles up to rounding at the boundary itself. *)

From Stdlib Require Import QArith Lqa ZArith Lia List String.
From stdpp Require Import base list strings.
Import ListNotations.

Local Open Scope Q_scope.

(** ** Values found in level data *)

(** The JSON values [loadJSON] can deliver, plus [undefined], which is what
    reading an array beyond its length yields. *)
#[warnings="-register-all"]
Inductive value : Type :=
| VUndefined
| VNull
| VBool (b : bool)
| VNum (n : Z)
| VStr (s : string)
| VArr (items : list value)
| VObj (fields : list (string * value)).

(** [v === n] for a number literal [n]. *)
Definition strict_eq_num (v : value) (n : Z) : bool :=
  match v with
  | VNum m => (m =? n)%Z
  | _ => false
  end.

(** [v === s] for a string literal [s]. *)
Definition strict_eq_str (v : value) (s : string) : bool :=
  match v with
  | VStr t => String.eqb t s
  | _ => false
  end.

(** Truthiness, as used by [levelEntry && levelEntry.grid]. *)
Definition truthy (v : value) : bool :=
  match v with
  | VUndefined | VNull => false
  | VBool b => b
  | VNum n => negb (n =? 0)%Z
  | VStr s => negb (String.eqb s EmptyString)
  | VArr _ | VObj _ => true
  end.

(** [Array.isArray(v)]. *)
Definition isArray (v : value) : bool :=
  match v with
  | VArr _ => true
  | _ => false
  end.

(** Property lookup in a parsed JSON object: of two fields with the same
    key the later one is the one [JSON.parse] keeps. *)
Fixpoint lookupField (key : string) (fields : list (string * value)) : option value :=
  match fields with
  | [] => None
  | (k, v) :: rest =>
      match lookupField key rest with
      | Some later => Some later
      | None => if String.eqb k key then Some v else None
      end
  end.

(** [v.grid]: [undefined] on an object without that field, on arrays and on
    primitives.  ([null.grid] throws, but [setup] guards the access with
    [levelEntry &&].) *)
Definition getGrid (v : value) : value :=
  match v with
  | VObj fields => default VUndefined (lookupField "grid" fields)
  | _ => VUndefined
  end.

(** [a < b] on numbers. *)
Definition Qltb (a b : Q) : bool :=
  (Qnum a * QDen b <? Qnum b * QDen a)%Z.

(** An index as a JavaScript number. *)
Definition num (n : nat) : Q := inject_Z (Z.of_nat n).

(** A grid is an array of rows, a row an array of values. *)
Abbreviation Grid := (list (list value)).

(** [g[r][c]] for a row index inside the grid: [undefined] when [c] is beyond
    the row.  Every use below has [r < length g]; outside the grid, where
    JavaScript throws, the model also yields [VUndefined] and the public
    accessor [Level.tileAt] reports the error separately. *)
Definition cellAt (g : Grid) (r c : nat) : value :=
  match g !! r with
  | Some line => default VUndefined (line !! c)
  | None => VUndefined
  end.

(** [g[r][c] = v] for an existing cell.  (On a missing cell JavaScript would
    grow the row; the constructor only writes cells it has just read a tile
    code from.) *)
Definition setCell (g : Grid) (r c : nat) (v : value) : Grid :=
  alter (fun line => <[c := v]> line) r g.

(** ** Rectangles *)

Record Rect : Type := mkRect {
  left : Q;
  top : Q;
  right : Q;
  bottom : Q
}.

(** ** Level.MovingObstacle *)

Module MovingObstacle.

Record t : Type := mk {
  col : Q;
  row : Q;
  minRow : Q;
  maxRow : Q;
  ts : Q;
  speed : Q;
  y : Q;
  x : Q;
  dir : Q;
  w : Q;
  h : Q;
  minY : Q;
  maxY : Q
}.

(** The default of the constructor's [speed] parameter. *)
Definition default_speed : Q := 1.8.

(** [constructor(col, row, minRow, maxRow, ts, speed = 1.8)] *)
Definition new (col row minRow maxRow ts speed : Q) : t :=
  {| col := col;
     row := row;
     minRow := minRow;
     maxRow := maxRow;
     ts := ts;
     speed := speed;
     y := row * ts + ts / 2;
     x := col * ts + ts / 2;
     dir := 1;
     w := ts * 0.8;
     h := ts * 0.8;
     minY := minRow * ts + ts / 2;
     maxY := maxRow * ts + ts / 2 |}.

(** Assignment to the two fields that change after construction. *)
Definition set_y_dir (o : t) (y' dir' : Q) : t :=
  {| col := col o; row := row o; minRow := minRow o; maxRow := maxRow o;
     ts := ts o; speed := speed o;
     y := y'; x := x o; dir := dir';
     w := w o; h := h o; minY := minY o; maxY := maxY o |}.

(** [update()]: move, then reverse at the bounds. *)
Definition update (o : t) : t :=
  let y1 := y o + speed o * dir o in
  if Qle_bool (maxY o) y1 then set_y_dir o (maxY o) (-1)
  else if Qle_bool y1 (minY o) then set_y_dir o (minY o) 1
  else set_y_dir o y1 (dir o).

(** [reset()] *)
Definition reset (o : t) : t :=
  set_y_dir o (row o * ts o + ts o / 2) 1.

(** [bounds()] *)
Definition bounds (o : t) : Rect :=
  {| left := x o - w o / 2;
     right := x o + w o / 2;
     top := y o - h o / 2;
     bottom := y o + h o / 2 |}.

End MovingObstacle.

(** ** Level *)

Module Level.

Record t : Type := mk {
  grid : Grid;
  ts : Q;
  obstacles : list MovingObstacle.t;
  start : option (nat * nat)
}.

(** *** Construction *)

(** [let minRow = r; while (minRow - 1 >= 0 && grid[minRow - 1][c] !== 1) minRow--;]
    The recursion is on [minRow] itself. *)
Fixpoint scanUp (g : Grid) (c minRow : nat) : nat :=
  match minRow with
  | O => O
  | S above =>
      if strict_eq_num (cellAt g above c) 1 then minRow
      else scanUp g c above
  end.

(** [let maxRow = r; while (maxRow + 1 < this.rows() && grid[maxRow + 1][c] !== 1) maxRow++;]
    [fuel] bounds the number of iterations; [scanDown_exits] shows that
    [length g] iterations always reach the exit of the loop. *)
Fixpoint scanDown (fuel : nat) (g : Grid) (c maxRow : nat) : nat :=
  match fuel with
  | O => maxRow
  | S fuel' =>
      if (maxRow + 1 <? length g)%nat
         && negb (strict_eq_num (cellAt g (maxRow + 1) c) 1)
      then scanDown fuel' g c (maxRow + 1)
      else maxRow
  end.

(** The body of the two nested loops of the constructor at cell [(r, c)]. *)
Definition visit (r c : nat) (L : t) : t :=
  let v := cellAt (grid L) r c in
  let L1 :=
    if strict_eq_num v 2
    then {| grid := setCell (grid L) r c (VNum 0);
            ts := ts L;
            obstacles := obstacles L;
            start := Some (r, c) |}
    else L in
  if strict_eq_str v "M"
  then
    let minRow := scanUp (grid L1) c r in
    let maxRow := scanDown (length (grid L1)) (grid L1) c r in
    {| grid := setCell (grid L1) r c (VNum 0);
       ts := ts L1;
       obstacles :=
         obstacles L1 ++
         [MovingObstacle.new (num c) (num r) (num minRow) (num maxRow)
            (ts L1) MovingObstacle.default_speed];
       start := start L1 |}
  else L1.

(** [for (let c = 0; c < this.cols(); c++) ...] on row [r]. *)
Definition scanRow (ncols r : nat) (L : t) : t :=
  fold_left (fun acc c => visit r c acc) (seq 0 ncols) L.

(** [for (let r = 0; r < this.rows(); r++) ...].  The body never changes
    the number of rows or the length of a row ([visit_shape]), so both
    loop bounds are constants of the scan. *)
Definition scanGrid (nrows ncols : nat) (L : t) : t :=
  fold_left (fun acc r => scanRow ncols r acc) (seq 0 nrows) L.

(** The length of row 0; 0 on an empty grid, where the outer loop does
    not run and [cols()] is never evaluated. *)
Definition width (g : Grid) : nat :=
  match g with
  | [] => O
  | line :: _ => length line
  end.

(** [constructor(grid, tileSize)].  The copy [grid.map((r) => r.slice())]
    is the identity on immutable lists. *)
Definition new (g : Grid) (tileSize : Q) : t :=
  scanGrid (length g) (width g)
    {| grid := g; ts := tileSize; obstacles := []; start := None |}.

(** *** Size helpers *)

Definition rows (L : t) : nat := length (grid L).

(** [this.grid[0].length]; [None] is the TypeError of an empty grid. *)
Definition cols (L : t) : option nat :=
  length <$> grid L !! O.

(** *** Semantic helpers *)

(** [tileAt(r, c)]: [None] is the TypeError of a row index outside the
    grid. *)
Definition tileAt (L : t) (r c : nat) : option value :=
  if (r <? length (grid L))%nat then Some (cellAt (grid L) r c) else None.

Definition isWall (L : t) (r c : nat) : option bool :=
  (fun v => strict_eq_num v 1) <$> tileAt L r c.

Definition isGoal (L : t) (r c : nat) : option bool :=
  (fun v => strict_eq_num v 3) <$> tileAt L r c.

(** *** Obstacles *)

Definition with_obstacles (L : t) (os : list MovingObstacle.t) : t :=
  {| grid := grid L; ts := ts L; obstacles := os; start := start L |}.

Definition updateObstacles (L : t) : t :=
  with_obstacles L (map MovingObstacle.update (obstacles L)).

Definition resetObstacles (L : t) : t :=
  with_obstacles L (map MovingObstacle.reset (obstacles L)).

(** The rejection test inside [checkObstacleCollision]:
    [right < b.left || left > b.right || bottom < b.top || top > b.bottom]. *)
Definition rejected (p b : Rect) : bool :=
  Qltb (right p) (left b)
  || Qltb (right b) (left p)
  || Qltb (bottom p) (top b)
  || Qltb (bottom b) (top p).

(** The loop of [checkObstacleCollision], returning at the first hit. *)
Fixpoint hitsAny (p : Rect) (os : list MovingObstacle.t) : bool :=
  match os with
  | [] => false
  | o :: rest =>
      if negb (rejected p (MovingObstacle.bounds o)) then true
      else hitsAny p rest
  end.

Definition checkObstacleCollision (L : t) (playerRect : Rect) : bool :=
  hitsAny playerRect (obstacles L).

(** *** Start finding *)

(** The inner loop of [findStart] over the columns still to visit. *)
Fixpoint findStartInRow (g : Grid) (r : nat) (cs : list nat) : option (nat * nat) :=
  match cs with
  | [] => None
  | c :: cs' =>
      if strict_eq_num (cellAt g r c) 2 then Some (r, c)
      else findStartInRow g r cs'
  end.

(** The outer loop of [findStart] over the rows still to visit. *)
Fixpoint findStartInRows (g : Grid) (ncols : nat) (rs : list nat) : option (nat * nat) :=
  match rs with
  | [] => None
  | r :: rs' =>
      match findStartInRow g r (seq 0 ncols) with
      | Some found => Some found
      | None => findStartInRows g ncols rs'
      end
  end.

(** [findStart()] on a grid. *)
Definition findStartIn (g : Grid) : option (nat * nat) :=
  findStartInRows g (width g) (seq 0 (length g)).

Definition findStart (L : t) : option (nat * nat) :=
  findStartIn (grid L).

(** [pixelWidth()]; [None] is the TypeError of [cols()] on an empty grid. *)
Definition pixelWidth (L : t) : option Q :=
  (fun n => num n * ts L) <$> cols L.

Definition pixelHeight (L : t) : Q :=
  num (rows L) * ts L.

(** [inBounds(r, c)]: [r >= 0 && c >= 0 && r < this.rows() && c < this.cols()],
    the operands evaluated from left to right until one is false.  The
    indices are any integers; [None] is the TypeError [cols()] raises on an
    empty grid. *)
Definition inBounds (L : t) (r c : Z) : option bool :=
  if negb (0 <=? r)%Z then Some false
  else if negb (0 <=? c)%Z then Some false
  else if negb (r <? Z.of_nat (rows L))%Z then Some false
  else (fun n => (c <? Z.of_nat n)%Z) <$> cols L.

End Level.

(** ** sketch.js: building the levels *)

Definition TS : Q := 32.

(** The cells of a row that is an array.  [None] for every other value:
    null, numbers, booleans and objects have no [slice], so copying the row
    raises a TypeError.  A row that is a string does have [slice]; such
    rows are outside this model, which gives [None] for them as well. *)
Definition asRow (v : value) : option (list value) :=
  match v with
  | VArr cells => Some cells
  | _ => None
  end.

(** [copyGrid(grid)]: [None] when [grid] is not an array, where [grid.map]
    raises a TypeError, or when a row is not an array (see [asRow]). *)
Definition copyGrid (v : value) : option Grid :=
  match v with
  | VArr lines => mapM asRow lines
  | _ => None
  end.

(** The grid of the fallback guard. *)
Definition fallbackGrid : Grid :=
  [[VNum 1; VNum 1]; [VNum 1; VNum 1]].

(** The callback of [levelsData.levels.map(...)] in [setup].  [None] comes
    from [copyGrid] only: a TypeError, or a grid with a string row, which
    the model leaves out. *)
Definition loadEntry (levelEntry : value) : option Level.t :=
  if isArray levelEntry
  then (fun g => Level.new g TS) <$> copyGrid levelEntry
  else if truthy levelEntry && truthy (getGrid levelEntry)
  then (fun g => Level.new g TS) <$> copyGrid (getGrid levelEntry)
  else Some (Level.new fallbackGrid TS).

(** ** sketch.js: the running game *)

Module Player.

(** Modelled from the spec: the Player class (Player.js), which is not among
    the sources.  A player holds its current grid cell and its tile size;
    [setCell(r, c)] stores the cell.  [pixelX()] and [pixelY()] are inputs
    of [draw] below. *)
Record t : Type := mk {
  r : nat;
  c : nat;
  ts : Q
}.

Definition setCell (p : t) (r' c' : nat) : t :=
  {| r := r'; c := c'; ts := ts p |}.

End Player.

(** The globals of sketch.js after [setup] ([levels], [li], [player]) and
    the size last given to [resizeCanvas]. *)
Record Game : Type := mkGame {
  levels : list Level.t;
  li : nat;
  player : Player.t;
  canvas : Q * Q
}.

(** [loadLevel(idx)].  [None] is a TypeError: [level.start] when
    [levels[idx]] is undefined, or [level.pixelWidth()] on an empty grid.
    The obstacles of the level are objects shared with [levels], so the
    reset is written back at [idx]. *)
Definition loadLevel (idx : nat) (G : Game) : option Game :=
  match levels G !! idx with
  | None => None
  | Some level =>
      let player' :=
        match Level.start level with
        | Some (r, c) => Player.setCell (player G) r c
        | None => Player.setCell (player G) 1 1
        end in
      match Level.pixelWidth level with
      | None => None
      | Some width =>
          Some {| levels := <[idx := Level.resetObstacles level]> (levels G);
                  li := idx;
                  player := player';
                  canvas := (width, Level.pixelHeight level) |}
      end
  end.

(** [nextLevel()]: [(li + 1) % levels.length].  With no level the remainder
    is NaN and [loadLevel] fails on [levels[NaN]]. *)
Definition nextLevel (G : Game) : option Game :=
  match length (levels G) with
  | O => None
  | S _ => loadLevel ((li G + 1) mod length (levels G)) G
  end.

(** The player's box built in [draw] from [player.pixelX()],
    [player.pixelY()] and [player.ts]. *)
Definition playerRect (px py pts : Q) : Rect :=
  let pw := pts * 0.6 in
  let ph := pw in
  {| left := px - pw / 2;
     top := py - ph / 2;
     right := px + pw / 2;
     bottom := py + ph / 2 |}.

(** One frame of [draw()], drawing left out: the obstacles of the current
    level move, and a collision reloads the level.  [px] and [py] are what
    [player.pixelX()] and [player.pixelY()] return in this frame.  [None] is
    the TypeError of [levels[li]] being undefined, or of [loadLevel]. *)
Definition draw (px py : Q) (G : Game) : option Game :=
  match levels G !! li G with
  | None => None
  | Some level =>
      let level' := Level.updateObstacles level in
      let G' := {| levels := <[li G := level']> (levels G);
                   li := li G;
                   player := player G;
                   canvas := canvas G |} in
      if Level.checkObstacleCollision level'
           (playerRect px py (Player.ts (player G)))
      then loadLevel (li G) G'
      else Some G'
  end.

(** The direction [(dr, dc)] that [keyPressed] hands to [player.tryMove], or
    [None] for a key that is not a movement key.  The four arrow key codes
    are constants of the p5 library and are parameters here. *)
Definition moveDirection
    (LEFT_ARROW RIGHT_ARROW UP_ARROW DOWN_ARROW : Z)
    (keyCode : Z) (key : string) : option (Z * Z) :=
  if (keyCode =? LEFT_ARROW)%Z || String.eqb key "a" || String.eqb key "A"
  then Some (0, -1)%Z
  else if (keyCode =? RIGHT_ARROW)%Z || String.eqb key "d" || String.eqb key "D"
  then Some (0, 1)%Z
  else if (keyCode =? UP_ARROW)%Z || String.eqb key "w" || String.eqb key "W"
  then Some (-1, 0)%Z
  else if (keyCode =? DOWN_ARROW)%Z || String.eqb key "s" || String.eqb key "S"
  then Some (1, 0)%Z
  else None.

(** [nextLevel()] called [k] times in a row. *)
Fixpoint nextLevels (k : nat) (G : Game) : option Game :=
  match k with
  | O => Some G
  | S k' =>
      match nextLevels k' G with
      | Some G' => nextLevel G'
      | None => None
      end
  end.

(** ** Vocabulary of the properties *)

(** [g[r][c]] as a partial lookup: [None] outside the grid or beyond the
    row. *)
Definition tile (g : Grid) (r c : nat) : option value :=
  g !! r ≫= (fun line => line !! c).

(** What the constructor leaves in a cell it has visited: the Start code
    and the spawn marker become Floor, every other value stays. *)
Definition normalize (v : value) : value :=
  if strict_eq_num v 2 || strict_eq_str v "M" then VNum 0 else v.

(** The cells of an [nrows] by [ncols] grid in row-major order, which is
    the order of the constructor's scan. *)
Definition cells (nrows ncols : nat) : list (nat * nat) :=
  flat_map (fun r => map (fun c => (r, c)) (seq 0 ncols)) (seq 0 nrows).

(** The constructor's loop body run over a list of cells. *)
Definition visitAll (ps : list (nat * nat)) (L : Level.t) : Level.t :=
  fold_left (fun acc p => Level.visit (fst p) (snd p) acc) ps L.

(** A grid is rectangular when every row is as long as row 0. *)
Definition rectangular (g : Grid) : Prop :=
  Forall (fun line => length line = Level.width g) g.

(** The Start cells of an input grid, in row-major order. *)
Definition startCells (g : Grid) : list (nat * nat) :=
  List.filter (fun p => strict_eq_num (cellAt g (fst p) (snd p)) 2)
    (cells (length g) (Level.width g)).

Definition firstStartCell (g : Grid) : option (nat * nat) :=
  head (startCells g).

Definition lastStartCell (g : Grid) : option (nat * nat) :=
  last (startCells g).

(** The obstacle the constructor creates when it meets cell [p] of a grid
    [g] (none unless the cell holds the spawn marker). *)
Definition spawnAt (g : Grid) (tileSize : Q) (p : nat * nat) : list MovingObstacle.t :=
  if strict_eq_str (cellAt g (fst p) (snd p)) "M"
  then [MovingObstacle.new (num (snd p)) (num (fst p))
          (num (Level.scanUp g (snd p) (fst p)))
          (num (Level.scanDown (length g) g (snd p) (fst p)))
          tileSize MovingObstacle.default_speed]
  else [].

(** Two grids with the same walls. *)
Definition sameWalls (g g' : Grid) : Prop :=
  length g = length g' /\
  forall i j, strict_eq_num (cellAt g i j) 1 = strict_eq_num (cellAt g' i j) 1.

(** One rectangle lies entirely to one side of the other, on either axis. *)
Definition separated (p b : Rect) : Prop :=
  right p < left b \/ right b < left p \/ bottom p < top b \/ bottom b < top p.

(** The projections of two rectangles meet on both axes. *)
Definition overlaps (p b : Rect) : Prop :=
  (left p <= right b /\ left b <= right p) /\
  (top p <= bottom b /\ top b <= bottom p).

(** The levels a game can hold: built by the constructor with a positive
    tile size, then ticked and reset any number of times. *)
Inductive reachable : Level.t -> Prop :=
| reach_new (g : Grid) (tileSize : Q) :
    0 < tileSize -> reachable (Level.new g tileSize)
| reach_update (L : Level.t) :
    reachable L -> reachable (Level.updateObstacles L)
| reach_reset (L : Level.t) :
    reachable L -> reachable (Level.resetObstacles L).

(** [v] is an object with a [grid] field. *)
Definition hasGridField (v : value) : bool :=
  match v with
  | VObj fields =>
      match lookupField "grid" fields with
      | Some _ => true
      | None => false
      end
  | _ => false
  end.

(** A malformed level entry: neither an array nor an object with a [grid]
    field. *)
Definition malformed (levelEntry : value) : Prop :=
  isArray levelEntry = false /\ hasGridField levelEntry = false.

(** The spawn-marker cells of an input grid, in row-major order. *)
Definition markerCells (g : Grid) : list (nat * nat) :=
  List.filter (fun p => strict_eq_str (cellAt g (fst p) (snd p)) "M")
    (cells (length g) (Level.width g)).

(** [L] is [L0] after ticks and resets, in any order. *)
Inductive evolves (L0 : Level.t) : Level.t -> Prop :=
| evolves_refl : evolves L0 L0
| evolves_update (L : Level.t) :
    evolves L0 L -> evolves L0 (Level.updateObstacles L)
| evolves_reset (L : Level.t) :
    evolves L0 L -> evolves L0 (Level.resetObstacles L).

(** What a patrolling obstacle keeps true of itself: the derived fields are
    those its constructor computed from a positive tile size and rows in
    order, the center is inside the travel range and the direction is a
    unit. *)
Definition patrolling (o : MovingObstacle.t) : Prop :=
  0 < MovingObstacle.ts o /\
  MovingObstacle.minRow o <= MovingObstacle.row o <= MovingObstacle.maxRow o /\
  MovingObstacle.x o
    = MovingObstacle.col o * MovingObstacle.ts o + MovingObstacle.ts o / 2 /\
  MovingObstacle.w o = MovingObstacle.ts o * 0.8 /\
  MovingObstacle.h o = MovingObstacle.ts o * 0.8 /\
  MovingObstacle.minY o
    = MovingObstacle.minRow o * MovingObstacle.ts o + MovingObstacle.ts o / 2 /\
  MovingObstacle.maxY o
    = MovingObstacle.maxRow o * MovingObstacle.ts o + MovingObstacle.ts o / 2 /\
  MovingObstacle.minY o <= MovingObstacle.y o <= MovingObstacle.maxY o /\
  (MovingObstacle.dir o = 1 \/ MovingObstacle.dir o = -1).

(** The fields of an obstacle that no method assigns after construction. *)
Definition fixedPart (o : MovingObstacle.t) : list Q :=
  [MovingObstacle.col o; MovingObstacle.row o; MovingObstacle.minRow o;
   MovingObstacle.maxRow o; MovingObstacle.ts o; MovingObstacle.speed o;
   MovingObstacle.x o; MovingObstacle.w o; MovingObstacle.h o;
   MovingObstacle.minY o; MovingObstacle.maxY o].

(** Every level of a game has at least one row. *)
Definition playable (G : Game) : Prop :=
  Forall (fun L => Level.grid L <> []) (levels G).

(** ** Sample data *)

Definition patrolGrid : Grid :=
  [[VNum 1; VNum 1; VNum 1; VNum 1; VNum 1];
   [VNum 1; VNum 0; VNum 0; VNum 0; VNum 1];
   [VNum 1; VNum 0; VStr "M"; VNum 0; VNum 1];
   [VNum 1; VNum 0; VNum 0; VNum 0; VNum 1];
   [VNum 1; VNum 1; VNum 1; VNum 1; VNum 1]].

Definition patrolLevel : Level.t := Level.new patrolGrid 10.

(** The obstacle of [patrolLevel]: column 2, row 2, rows 1 to 3. *)
Definition patrolObstacle : MovingObstacle.t :=
  MovingObstacle.new 2 2 1 3 10 1.8.

Definition twoStartsGrid : Grid := [[VNum 2; VNum 2]].

(** A game of two levels, the first one current. *)
Definition sampleGame : Game :=
  {| levels := [patrolLevel; Level.new twoStartsGrid 10];
     li := O;
     player := {| Player.r := 1; Player.c := 1; Player.ts := 10 |};
     canvas := (50, 50) |}.

(** * Properties *)

(** ** Numbers *)

Lemma Qltb_lt (a b : Q) : Qltb a b = true <-> a < b.
Proof. unfold Qltb, Qlt. apply Z.ltb_lt. Qed.

Lemma Qltb_ge (a b : Q) : Qltb a b = false <-> b <= a.
Proof. unfold Qltb, Qle. rewrite Z.ltb_ge. reflexivity. Qed.

Lemma Qle_bool_false (a b : Q) : Qle_bool a b = false <-> b < a.
Proof.
  rewrite <- Bool.not_true_iff_false, Qle_bool_iff.
  split; [apply Qnot_le_lt | apply Qlt_not_le].
Qed.

Lemma half_nonneg (a : Q) : 0 <= a -> 0 <= a / 2.
Proof. intros H. apply Qle_shift_div_l; [reflexivity | lra]. Qed.

Lemma num_le (a b : nat) : (a <= b)%nat -> num a <= num b.
Proof. intros H. unfold num. rewrite <- Zle_Qle. lia. Qed.

(** ** The obstacle *)

Import MovingObstacle.

Lemma set_y_dir_bounds (o : MovingObstacle.t) (y' d : Q) :
  minY (set_y_dir o y' d) = minY o /\ maxY (set_y_dir o y' d) = maxY o.
Proof. split; reflexivity. Qed.

(** [update] changes nothing but [y] and [dir]. *)
Lemma update_frame (o : MovingObstacle.t) :
  exists y' d, update o = set_y_dir o y' d.
Proof.
  unfold update.
  destruct (Qle_bool (maxY o) _); [eauto |].
  destruct (Qle_bool _ (minY o)); eauto.
Qed.

Lemma iter_update_frame (n : nat) (o : MovingObstacle.t) :
  exists y' d, Nat.iter n update o = set_y_dir o y' d.
Proof.
  induction n as [| n [y' [d IH]]]; simpl.
  - exists (y o), (dir o). destruct o; reflexivity.
  - rewrite IH. destruct (update_frame (set_y_dir o y' d)) as [y2 [d2 E]].
    rewrite E. eauto.
Qed.

(** One tick lands inside the travel range whenever that range is not
    empty. *)
Lemma update_within (o : MovingObstacle.t) :
  minY o <= maxY o ->
  minY (update o) <= y (update o) <= maxY (update o).
Proof.
  intros Hrange. unfold update.
  destruct (Qle_bool (maxY o) _) eqn:Hmax; simpl.
  - split; [exact Hrange | apply Qle_refl].
  - destruct (Qle_bool _ (minY o)) eqn:Hmin; simpl.
    + split; [apply Qle_refl | exact Hrange].
    + apply Qle_bool_false in Hmax, Hmin.
      split; apply Qlt_le_weak; assumption.
Qed.

Lemma new_within (col row minRow maxRow ts speed : Q) :
  0 < ts -> minRow <= row <= maxRow ->
  let o := MovingObstacle.new col row minRow maxRow ts speed in
  minY o <= y o <= maxY o.
Proof.
  intros Hts [Hlo Hhi]. simpl.
  assert (0 <= ts) as Hts' by (apply Qlt_le_weak; exact Hts).
  pose proof (Qmult_le_compat_r _ _ ts Hlo Hts').
  pose proof (Qmult_le_compat_r _ _ ts Hhi Hts').
  split; lra.
Qed.

(** C1.  An obstacle constructed with [minRow <= row <= maxRow] (and a
    positive tile size) has its vertical center inside [[minY, maxY]] after
    any number of consecutive calls of [update]; the two bounds never move.
    Each tick advances the center by [speed * dir]; a result at or beyond
    [maxY] is clamped to [maxY] with direction -1; otherwise a result at or
    below [minY] is clamped to [minY] with direction +1; otherwise the
    result is kept and the direction is unchanged. *)
Theorem obstacle_clamped_forever
    (col row minRow maxRow ts speed : Q) (n : nat) :
  0 < ts ->
  minRow <= row <= maxRow ->
  let o := Nat.iter n update (MovingObstacle.new col row minRow maxRow ts speed) in
  let y1 := y o + MovingObstacle.speed o * dir o in
  (minY o <= y o <= maxY o) /\
  (minY o = minRow * ts + ts / 2 /\ maxY o = maxRow * ts + ts / 2) /\
  (maxY o <= y1 -> y (update o) = maxY o /\ dir (update o) = -1) /\
  (y1 < maxY o -> y1 <= minY o ->
   y (update o) = minY o /\ dir (update o) = 1) /\
  (minY o < y1 < maxY o -> y (update o) = y1 /\ dir (update o) = dir o).
Proof.
  intros Hts Hrow o y1.
  assert (Hbounds : minY o = minRow * ts + ts / 2 /\ maxY o = maxRow * ts + ts / 2).
  { subst o. destruct (iter_update_frame n
      (MovingObstacle.new col row minRow maxRow ts speed)) as [y' [d E]].
    rewrite E. split; reflexivity. }
  assert (Hin : minY o <= y o <= maxY o).
  { subst o y1. clear Hbounds. induction n as [| n IH]; simpl.
    - apply (new_within col row minRow maxRow ts speed Hts Hrow).
    - apply update_within. destruct IH as [Hlo Hhi].
      apply Qle_trans with (1 := Hlo). exact Hhi. }
  split; [exact Hin |]. split; [exact Hbounds |].
  unfold update. fold y1.
  split; [| split].
  - intros Hmax. apply Qle_bool_iff in Hmax. rewrite Hmax.
    split; reflexivity.
  - intros Hmax Hmin. apply Qle_bool_false in Hmax.
    apply Qle_bool_iff in Hmin. rewrite Hmax, Hmin.
    split; reflexivity.
  - intros [Hmin Hmax]. apply Qle_bool_false in Hmin, Hmax.
    rewrite Hmax, Hmin. split; reflexivity.
Qed.

Lemma obstacle_clamped_forever_witness :
  0 < 10 /\ 1 <= 2 <= 3 /\
  let o := Nat.iter 7 update (MovingObstacle.new 2 2 1 3 10 1.8) in
  minY o <= y o <= maxY o.
Proof.
  split; [reflexivity |].
  split; [split; discriminate |].
  apply (obstacle_clamped_forever 2 2 1 3 10 1.8 7);
    [reflexivity | split; discriminate].
Defined.

(** C4, as stated, fails: [w] and [h] are 0.8 times the tile size but they
    are the full width and height; [bounds] reaches half of them from the
    center, so a side spans 0.8 and not 1.6 times the tile size. *)
Lemma obstacle_half_extent_counterexample :
  ~ (right (bounds patrolObstacle) == x patrolObstacle + 0.8 * ts patrolObstacle)
  /\ ~ (right (bounds patrolObstacle) - left (bounds patrolObstacle)
        == 1.6 * ts patrolObstacle).
Proof. split; vm_compute; discriminate. Qed.

(** C4, amended.  For an obstacle constructed with tile size [ts], at any
    later tick, the fixed width and height [w] and [h] each equal
    [ts * 0.8] and are full extents, not half-extents: [bounds] spans from
    the center minus half of them to the center plus half of them, its
    four edges being [x - (ts * 0.8) / 2], [x + (ts * 0.8) / 2],
    [y - (ts * 0.8) / 2] and [y + (ts * 0.8) / 2]. *)
Theorem obstacle_bounds_extent
    (col row minRow maxRow ts speed : Q) (n : nat) :
  let o := Nat.iter n update (MovingObstacle.new col row minRow maxRow ts speed) in
  w o = ts * 0.8 /\ h o = ts * 0.8 /\
  bounds o = {| left := x o - w o / 2; top := y o - h o / 2;
                right := x o + w o / 2; bottom := y o + h o / 2 |} /\
  left (bounds o) = x o - ts * 0.8 / 2 /\
  right (bounds o) = x o + ts * 0.8 / 2 /\
  top (bounds o) = y o - ts * 0.8 / 2 /\
  bottom (bounds o) = y o + ts * 0.8 / 2.
Proof.
  intros o.
  destruct (iter_update_frame n
    (MovingObstacle.new col row minRow maxRow ts speed)) as [y' [d E]].
  subst o. rewrite E.
  repeat split; reflexivity.
Qed.

(** ** Collision *)

Lemma rejected_false (p b : Rect) :
  Level.rejected p b = false <-> overlaps p b.
Proof.
  unfold Level.rejected, overlaps.
  rewrite !Bool.orb_false_iff, !Qltb_ge. tauto.
Qed.

Lemma rejected_true (p b : Rect) :
  Level.rejected p b = true <-> separated p b.
Proof.
  unfold Level.rejected, separated.
  rewrite !Bool.orb_true_iff, !Qltb_lt. tauto.
Qed.

Lemma overlaps_not_separated (p b : Rect) :
  overlaps p b <-> ~ separated p b.
Proof.
  rewrite <- rejected_false, <- rejected_true.
  destruct (Level.rejected p b); split; congruence.
Qed.

Lemma hitsAny_true (p : Rect) (os : list MovingObstacle.t) :
  Level.hitsAny p os = true <-> exists o, In o os /\ overlaps p (bounds o).
Proof.
  induction os as [| o os IH]; simpl.
  - split; [discriminate | intros [o [[] _]]].
  - destruct (Level.rejected p (bounds o)) eqn:Hrej; simpl.
    + rewrite IH. split.
      * intros [o' [Hin Hov]]. eauto.
      * intros [o' [[<- | Hin] Hov]]; [| eauto].
        apply rejected_false in Hov. congruence.
    + split; [| reflexivity]. intros _. exists o.
      split; [left; reflexivity | apply rejected_false; exact Hrej].
Qed.

(** C2.  [checkObstacleCollision] is true exactly when the player rectangle
    overlaps the current [bounds()] of at least one obstacle of the level,
    where two rectangles overlap exactly when neither lies entirely to one
    side of the other on an axis.  It is false on an empty obstacle list and
    whenever every obstacle box is separated from the player box on some
    axis, and true as soon as one obstacle box meets it on both axes. *)
Theorem collision_iff_overlap (L : Level.t) (playerRect : Rect) :
  (Level.checkObstacleCollision L playerRect = true <->
   exists o, In o (Level.obstacles L) /\ overlaps playerRect (bounds o)) /\
  (forall b, overlaps playerRect b <-> ~ separated playerRect b) /\
  (Level.obstacles L = [] -> Level.checkObstacleCollision L playerRect = false) /\
  ((forall o, In o (Level.obstacles L) -> separated playerRect (bounds o)) ->
   Level.checkObstacleCollision L playerRect = false) /\
  ((exists o, In o (Level.obstacles L) /\
      (left playerRect <= right (bounds o) /\ left (bounds o) <= right playerRect) /\
      (top playerRect <= bottom (bounds o) /\ top (bounds o) <= bottom playerRect)) ->
   Level.checkObstacleCollision L playerRect = true).
Proof.
  unfold Level.checkObstacleCollision.
  split; [apply hitsAny_true |].
  split; [intros b; apply overlaps_not_separated |].
  split; [intros ->; reflexivity |].
  split.
  - intros Hsep. apply Bool.not_true_is_false. rewrite hitsAny_true.
    intros [o [Hin Hov]]. apply overlaps_not_separated in Hov.
    apply Hov, Hsep, Hin.
  - intros Hex. apply hitsAny_true. exact Hex.
Qed.

(** ** Reading and writing cells *)

Lemma cellAt_tile (g : Grid) (r c : nat) :
  cellAt g r c = default VUndefined (tile g r c).
Proof. unfold cellAt, tile. destruct (g !! r); reflexivity. Qed.


Lemma tile_setCell (g : Grid) (r c i j : nat) (v : value) :
  tile (setCell g r c v) i j =
  if decide (i = r /\ j = c) then (fun _ => v) <$> tile g i j else tile g i j.
Proof.
  unfold tile, setCell. rewrite list_lookup_alter.
  destruct (decide (r = i)) as [-> | Hr].
  - destruct (g !! i) as [line |]; simpl.
    + rewrite list_lookup_insert.
      destruct (decide (i = i /\ j = c)) as [[_ ->] | Hn].
      * destruct (decide (c = c /\ (c < length line)%nat)) as [[_ Hlt] | Hge].
        -- destruct (lookup_lt_is_Some_2 line c Hlt) as [v' ->]. reflexivity.
        -- rewrite lookup_ge_None_2 by lia. reflexivity.
      * destruct (decide (c = j /\ (c < length line)%nat)) as [[-> _] | _];
          [exfalso; apply Hn; split; reflexivity | reflexivity].
    + destruct (decide (i = i /\ j = c)); reflexivity.
  - destruct (decide (i = r /\ j = c)) as [[-> _] | _];
      [exfalso; apply Hr; reflexivity | reflexivity].
Qed.

Lemma setCell_shape (g : Grid) (r c : nat) (v : value) :
  map length (setCell g r c v) = map length g.
Proof.
  unfold setCell. revert r.
  induction g as [| line g IH]; intros [| r]; simpl; try reflexivity.
  - rewrite length_insert. reflexivity.
  - f_equal. apply IH.
Qed.

Lemma shape_length (g g' : Grid) :
  map length g' = map length g -> length g' = length g.
Proof.
  intros H. apply (f_equal (@length nat)) in H.
  rewrite !length_map in H. exact H.
Qed.

Lemma shape_width (g g' : Grid) :
  map length g' = map length g -> Level.width g' = Level.width g.
Proof.
  destruct g, g'; simpl; intros H; try discriminate; [reflexivity |].
  injection H as H _. exact H.
Qed.

(** ** Tile codes *)

Lemma start_is_not_marker (v : value) :
  strict_eq_num v 2 = true -> strict_eq_str v "M" = false.
Proof. destruct v; simpl; congruence. Qed.

Lemma strict_eq_num_inv (v : value) (n : Z) :
  strict_eq_num v n = true <-> v = VNum n.
Proof.
  destruct v; simpl; split; try congruence.
  - intros H. apply Z.eqb_eq in H. congruence.
  - intros [= ->]. apply Z.eqb_refl.
Qed.

Lemma strict_eq_str_inv (v : value) (s : string) :
  strict_eq_str v s = true <-> v = VStr s.
Proof.
  destruct v; simpl; split; try congruence.
  - intros H. apply String.eqb_eq in H. congruence.
  - intros [= ->]. apply String.eqb_refl.
Qed.

Lemma normalize_codes (v : value) :
  normalize v <> VNum 2 /\ normalize v <> VStr "M".
Proof.
  unfold normalize.
  destruct (strict_eq_num v 2) eqn:E2; simpl.
  - split; discriminate.
  - destruct (strict_eq_str v "M") eqn:EM.
    + split; discriminate.
    + split; intros ->.
      * simpl in E2. discriminate.
      * simpl in EM. discriminate.
Qed.

Lemma normalize_idem (v : value) : normalize (normalize v) = normalize v.
Proof.
  unfold normalize.
  destruct (strict_eq_num v 2 || strict_eq_str v "M") eqn:E;
    [reflexivity | rewrite E; reflexivity].
Qed.

Lemma normalize_wall (v : value) :
  strict_eq_num (normalize v) 1 = strict_eq_num v 1.
Proof.
  unfold normalize.
  destruct (strict_eq_num v 2) eqn:E2; simpl.
  - apply strict_eq_num_inv in E2. subst v. reflexivity.
  - destruct (strict_eq_str v "M") eqn:EM; [| reflexivity].
    apply strict_eq_str_inv in EM. subst v. reflexivity.
Qed.

Lemma normalize_not_start (v : value) : strict_eq_num (normalize v) 2 = false.
Proof.
  apply Bool.not_true_is_false. rewrite strict_eq_num_inv.
  apply normalize_codes.
Qed.

(** ** The loop body *)

Lemma visit_grid (r c : nat) (L : Level.t) :
  Level.grid (Level.visit r c L) =
  if strict_eq_num (cellAt (Level.grid L) r c) 2
     || strict_eq_str (cellAt (Level.grid L) r c) "M"
  then setCell (Level.grid L) r c (VNum 0)
  else Level.grid L.
Proof.
  unfold Level.visit.
  destruct (strict_eq_num _ 2) eqn:E2.
  - rewrite (start_is_not_marker _ E2). reflexivity.
  - destruct (strict_eq_str _ "M"); reflexivity.
Qed.

Lemma visit_ts (r c : nat) (L : Level.t) :
  Level.ts (Level.visit r c L) = Level.ts L.
Proof.
  unfold Level.visit.
  destruct (strict_eq_num _ 2), (strict_eq_str _ "M"); reflexivity.
Qed.

Lemma visit_start (r c : nat) (L : Level.t) :
  Level.start (Level.visit r c L) =
  if strict_eq_num (cellAt (Level.grid L) r c) 2 then Some (r, c)
  else Level.start L.
Proof.
  unfold Level.visit.
  destruct (strict_eq_num _ 2), (strict_eq_str _ "M"); reflexivity.
Qed.

Lemma visit_obstacles (r c : nat) (L : Level.t) :
  Level.obstacles (Level.visit r c L) =
  Level.obstacles L ++ spawnAt (Level.grid L) (Level.ts L) (r, c).
Proof.
  unfold Level.visit, spawnAt. simpl.
  destruct (strict_eq_num _ 2) eqn:E2.
  - rewrite (start_is_not_marker _ E2). simpl. rewrite app_nil_r. reflexivity.
  - destruct (strict_eq_str _ "M"); [reflexivity |].
    rewrite app_nil_r. reflexivity.
Qed.

Lemma visit_shape (r c : nat) (L : Level.t) :
  map length (Level.grid (Level.visit r c L)) = map length (Level.grid L).
Proof.
  rewrite visit_grid. destruct (_ || _); [apply setCell_shape | reflexivity].
Qed.

(** A visit normalizes the visited cell and leaves every other cell. *)
Lemma visit_tile (r c i j : nat) (L : Level.t) :
  tile (Level.grid (Level.visit r c L)) i j =
  if decide ((i, j) = (r, c)) then normalize <$> tile (Level.grid L) i j
  else tile (Level.grid L) i j.
Proof.
  rewrite visit_grid, cellAt_tile.
  destruct (decide ((i, j) = (r, c))) as [[= -> ->] | Hne].
  - destruct (tile (Level.grid L) r c) as [v |] eqn:Ev; simpl.
    + unfold normalize.
      destruct (strict_eq_num v 2 || strict_eq_str v "M"); [| exact Ev].
      rewrite tile_setCell, Ev.
      destruct (decide (r = r /\ c = c)) as [_ | Hn]; [reflexivity |].
      exfalso. apply Hn. split; reflexivity.
    + exact Ev.
  - destruct (_ || _); [| reflexivity].
    rewrite tile_setCell.
    destruct (decide (i = r /\ j = c)) as [[-> ->] | _]; [| reflexivity].
    exfalso. apply Hne. reflexivity.
Qed.

Lemma visit_cellAt (r c i j : nat) (L : Level.t) :
  cellAt (Level.grid (Level.visit r c L)) i j =
  if decide ((i, j) = (r, c)) then normalize (cellAt (Level.grid L) i j)
  else cellAt (Level.grid L) i j.
Proof.
  rewrite !cellAt_tile, visit_tile.
  destruct (decide ((i, j) = (r, c))); [| reflexivity].
  destruct (tile (Level.grid L) i j); reflexivity.
Qed.

(** ** The scan as one pass over the cells in row-major order *)

Lemma visitAll_app (ps qs : list (nat * nat)) (L : Level.t) :
  visitAll (ps ++ qs) L = visitAll qs (visitAll ps L).
Proof. apply fold_left_app. Qed.

Lemma scanRow_cells (ncols r : nat) (L : Level.t) :
  Level.scanRow ncols r L = visitAll (map (fun c => (r, c)) (seq 0 ncols)) L.
Proof.
  unfold Level.scanRow, visitAll. generalize (seq 0 ncols) as cs. intros cs.
  revert L. induction cs as [| c cs IH]; intros L; simpl; [reflexivity |].
  apply IH.
Qed.

Lemma scanGrid_cells (nrows ncols : nat) (L : Level.t) :
  Level.scanGrid nrows ncols L = visitAll (cells nrows ncols) L.
Proof.
  unfold Level.scanGrid, cells. generalize (seq 0 nrows) as rs. intros rs.
  revert L. induction rs as [| r rs IH]; intros L; simpl; [reflexivity |].
  rewrite visitAll_app, <- scanRow_cells. apply IH.
Qed.

Lemma elem_of_cells (nrows ncols r c : nat) :
  (r, c) ∈ cells nrows ncols <-> (r < nrows)%nat /\ (c < ncols)%nat.
Proof.
  rewrite list_elem_of_In. unfold cells. rewrite in_flat_map. split.
  - intros [r' [Hr Hc]]. apply in_map_iff in Hc as [c' [[= <- <-] Hc]].
    apply in_seq in Hr, Hc. lia.
  - intros [Hr Hc]. exists r. split; [apply in_seq; lia |].
    apply in_map_iff. exists c. split; [reflexivity | apply in_seq; lia].
Qed.

Lemma cells_S (nrows ncols : nat) :
  cells (S nrows) ncols =
  cells nrows ncols ++ map (fun c => (nrows, c)) (seq 0 ncols).
Proof.
  unfold cells. rewrite seq_S, flat_map_app. simpl.
  rewrite app_nil_r. reflexivity.
Qed.

Lemma NoDup_cells (nrows ncols : nat) : NoDup (cells nrows ncols).
Proof.
  induction nrows as [| n IH].
  - apply NoDup_nil_2.
  - rewrite cells_S. apply NoDup_app. split; [exact IH |]. split.
    + intros [r c] Hin Hrow. apply elem_of_cells in Hin.
      apply list_elem_of_In, in_map_iff in Hrow as [c' [[= -> _] _]]. lia.
    + change (NoDup ((fun c => (n, c)) <$> seq 0 ncols)).
      apply NoDup_fmap_2; [intros c c' [= ->]; reflexivity | apply NoDup_seq].
Qed.

(** ** Invariants of the pass *)

Lemma visitAll_shape (ps : list (nat * nat)) (L : Level.t) :
  map length (Level.grid (visitAll ps L)) = map length (Level.grid L).
Proof.
  revert L. induction ps as [| [r c] ps IH]; intros L; simpl; [reflexivity |].
  unfold visitAll in *. simpl. rewrite IH. apply visit_shape.
Qed.

Lemma visitAll_ts (ps : list (nat * nat)) (L : Level.t) :
  Level.ts (visitAll ps L) = Level.ts L.
Proof.
  revert L. induction ps as [| [r c] ps IH]; intros L; simpl; [reflexivity |].
  unfold visitAll in *. simpl. rewrite IH. apply visit_ts.
Qed.

(** After the pass, a visited cell is normalized and an unvisited one is as
    it was. *)
Lemma visitAll_tile (ps : list (nat * nat)) (L : Level.t) (i j : nat) :
  tile (Level.grid (visitAll ps L)) i j =
  if decide ((i, j) ∈ ps) then normalize <$> tile (Level.grid L) i j
  else tile (Level.grid L) i j.
Proof.
  revert L. induction ps as [| [r c] ps IH]; intros L.
  - simpl. destruct (decide ((i, j) ∈ [])) as [Hin | _]; [| reflexivity].
    apply elem_of_nil in Hin. contradiction.
  - change (visitAll ((r, c) :: ps) L) with (visitAll ps (Level.visit r c L)).
    rewrite IH, visit_tile.
    destruct (decide ((i, j) ∈ ps)) as [Hin | Hout];
      destruct (decide ((i, j) = (r, c))) as [Heq | Hne];
      destruct (decide ((i, j) ∈ (r, c) :: ps)) as [Hin' | Hout'];
      try reflexivity.
    + destruct (tile (Level.grid L) i j); simpl; [| reflexivity].
      rewrite normalize_idem. reflexivity.
    + exfalso. apply Hout'. apply elem_of_cons. right. exact Hin.
    + exfalso. apply Hout'. apply elem_of_cons. right. exact Hin.
    + exfalso. apply Hout'. apply elem_of_cons. left. exact Heq.
    + exfalso. apply elem_of_cons in Hin' as [Heq | Hin]; contradiction.
Qed.

Lemma visitAll_cellAt (ps : list (nat * nat)) (L : Level.t) (i j : nat) :
  cellAt (Level.grid (visitAll ps L)) i j =
  if decide ((i, j) ∈ ps) then normalize (cellAt (Level.grid L) i j)
  else cellAt (Level.grid L) i j.
Proof.
  rewrite !cellAt_tile, visitAll_tile.
  destruct (decide ((i, j) ∈ ps)); [| reflexivity].
  destruct (tile (Level.grid L) i j); reflexivity.
Qed.

(** ** Walls are never touched *)

Lemma sameWalls_refl (g : Grid) : sameWalls g g.
Proof. split; reflexivity. Qed.

Lemma visit_sameWalls (r c : nat) (L : Level.t) :
  sameWalls (Level.grid L) (Level.grid (Level.visit r c L)).
Proof.
  split.
  - symmetry. apply shape_length, visit_shape.
  - intros i j. rewrite visit_cellAt.
    destruct (decide ((i, j) = (r, c))); [| reflexivity].
    symmetry. apply normalize_wall.
Qed.

Lemma scanUp_sameWalls (g g' : Grid) (c r : nat) :
  sameWalls g g' -> Level.scanUp g c r = Level.scanUp g' c r.
Proof.
  intros [_ Hw]. induction r as [| r IH]; simpl; [reflexivity |].
  rewrite Hw, IH. reflexivity.
Qed.

Lemma scanDown_sameWalls (g g' : Grid) (fuel c r : nat) :
  sameWalls g g' -> Level.scanDown fuel g c r = Level.scanDown fuel g' c r.
Proof.
  intros [Hlen Hw]. revert r. induction fuel as [| fuel IH]; intros r; simpl;
    [reflexivity |].
  rewrite Hlen, Hw, IH. reflexivity.
Qed.

Lemma spawnAt_visit (r c : nat) (L : Level.t) (q : nat * nat) :
  q <> (r, c) ->
  spawnAt (Level.grid (Level.visit r c L)) (Level.ts (Level.visit r c L)) q
  = spawnAt (Level.grid L) (Level.ts L) q.
Proof.
  intros Hne. destruct q as [i j]. unfold spawnAt. simpl.
  pose proof (visit_sameWalls r c L) as Hw.
  rewrite visit_cellAt, visit_ts.
  destruct (decide ((i, j) = (r, c))); [contradiction |].
  rewrite <- (scanUp_sameWalls _ _ j i Hw).
  destruct Hw as [Hlen Hw']. rewrite <- Hlen.
  rewrite <- (scanDown_sameWalls _ _ (length (Level.grid L)) j i
                (conj Hlen Hw')).
  reflexivity.
Qed.

(** ** What the pass records *)

(** The start field after a pass over distinct cells: the last visited cell
    that held the Start code, or the old value when there is none. *)
Lemma visitAll_start (ps : list (nat * nat)) (L : Level.t) :
  NoDup ps ->
  Level.start (visitAll ps L) =
  match last (List.filter
                (fun p => strict_eq_num (cellAt (Level.grid L) (fst p) (snd p)) 2)
                ps) with
  | Some p => Some p
  | None => Level.start L
  end.
Proof.
  revert L. induction ps as [| [r c] ps IH]; intros L Hnd; [reflexivity |].
  apply NoDup_cons in Hnd as [Hfresh Hnd].
  change (visitAll ((r, c) :: ps) L) with (visitAll ps (Level.visit r c L)).
  rewrite (IH _ Hnd).
  rewrite (filter_ext_in _
    (fun p => strict_eq_num (cellAt (Level.grid L) (fst p) (snd p)) 2) ps).
  2:{ intros [i j] Hin. simpl. rewrite visit_cellAt.
      destruct (decide ((i, j) = (r, c))) as [Heq | _]; [| reflexivity].
      exfalso. apply Hfresh. rewrite <- Heq. apply list_elem_of_In. exact Hin. }
  rewrite visit_start. simpl.
  destruct (strict_eq_num (cellAt (Level.grid L) r c) 2); [| reflexivity].
  rewrite last_cons. destruct (last _); reflexivity.
Qed.

Lemma spawn_after_visit (r c : nat) (L : Level.t) (ps : list (nat * nat)) :
  (r, c) ∉ ps ->
  flat_map (spawnAt (Level.grid (Level.visit r c L))
              (Level.ts (Level.visit r c L))) ps
  = flat_map (spawnAt (Level.grid L) (Level.ts L)) ps.
Proof.
  induction ps as [| q ps IH]; intros Hfresh; simpl; [reflexivity |].
  rewrite IH, spawnAt_visit; [reflexivity | |].
  - intros ->. apply Hfresh. apply elem_of_cons. left. reflexivity.
  - intros Hin. apply Hfresh. apply elem_of_cons. right. exact Hin.
Qed.

(** The obstacle list after a pass over distinct cells: one obstacle per
    spawn marker, in the order of the pass, with travel bounds scanned on
    the grid as it was before the pass. *)
Lemma visitAll_obstacles (ps : list (nat * nat)) (L : Level.t) :
  NoDup ps ->
  Level.obstacles (visitAll ps L) =
  Level.obstacles L ++ flat_map (spawnAt (Level.grid L) (Level.ts L)) ps.
Proof.
  revert L. induction ps as [| [r c] ps IH]; intros L Hnd.
  - simpl. rewrite app_nil_r. reflexivity.
  - apply NoDup_cons in Hnd as [Hfresh Hnd].
    change (visitAll ((r, c) :: ps) L) with (visitAll ps (Level.visit r c L)).
    rewrite (IH _ Hnd), (spawn_after_visit _ _ _ _ Hfresh), visit_obstacles.
    simpl. rewrite <- app_assoc. reflexivity.
Qed.

Lemma new_as_pass (g : Grid) (tileSize : Q) :
  Level.new g tileSize =
  visitAll (cells (length g) (Level.width g))
    {| Level.grid := g; Level.ts := tileSize;
       Level.obstacles := []; Level.start := None |}.
Proof. apply scanGrid_cells. Qed.

Lemma new_shape (g : Grid) (tileSize : Q) :
  map length (Level.grid (Level.new g tileSize)) = map length g.
Proof. rewrite new_as_pass. apply visitAll_shape. Qed.

Lemma new_obstacles (g : Grid) (tileSize : Q) :
  Level.obstacles (Level.new g tileSize) =
  flat_map (spawnAt g tileSize) (cells (length g) (Level.width g)).
Proof.
  rewrite new_as_pass, visitAll_obstacles by apply NoDup_cells. reflexivity.
Qed.

Lemma new_cellAt (g : Grid) (tileSize : Q) (r c : nat) :
  (r < length g)%nat -> (c < Level.width g)%nat ->
  cellAt (Level.grid (Level.new g tileSize)) r c = normalize (cellAt g r c).
Proof.
  intros Hr Hc. rewrite new_as_pass, visitAll_cellAt. simpl.
  destruct (decide ((r, c) ∈ cells (length g) (Level.width g))) as [_ | Hout];
    [reflexivity |].
  exfalso. apply Hout, elem_of_cells. split; assumption.
Qed.

(** ** The start cell *)

(** C3, as stated, fails: with two Start cells in the one row of
    [twoStartsGrid] the constructor records cell (0, 1), the last one,
    while the first Start cell in row-major order is (0, 0). *)
Lemma first_start_wins_counterexample :
  ~ (forall (g : Grid) (tileSize : Q),
       (1 < length (startCells g))%nat ->
       Level.start (Level.new g tileSize) = firstStartCell g).
Proof.
  intros Hclaim.
  specialize (Hclaim twoStartsGrid 10).
  assert (Hmany : (1 < length (startCells twoStartsGrid))%nat)
    by (vm_compute; lia).
  specialize (Hclaim Hmany). vm_compute in Hclaim. discriminate.
Qed.

(** C3, amended.  For every input grid, the constructed Level's start field
    records the location of the last Start cell (tile code 2) encountered in
    row-major scan order: every Start cell overwrites the field, so the last
    one found wins.  With at most one Start cell that is also the first
    one. *)
Theorem start_is_last_start_cell (g : Grid) (tileSize : Q) :
  Level.start (Level.new g tileSize) = lastStartCell g /\
  ((length (startCells g) <= 1)%nat ->
   Level.start (Level.new g tileSize) = firstStartCell g).
Proof.
  assert (Hlast : Level.start (Level.new g tileSize) = lastStartCell g).
  { rewrite new_as_pass, visitAll_start by apply NoDup_cells. simpl.
    unfold lastStartCell, startCells. destruct (last _); reflexivity. }
  split; [exact Hlast |].
  intros Hone. rewrite Hlast. unfold lastStartCell, firstStartCell.
  destruct (startCells g) as [| p [| q rest]]; simpl in *;
    [reflexivity | reflexivity | lia].
Qed.

(** ** The normalized grid *)

Lemma lookup_map {A B : Type} (f : A -> B) (l : list A) (i : nat) :
  map f l !! i = f <$> l !! i.
Proof.
  revert i. induction l as [| a l IH]; intros [| i]; simpl; try reflexivity.
  apply IH.
Qed.

Lemma tile_map (f : value -> value) (g : Grid) (r c : nat) :
  tile (map (map f) g) r c = f <$> tile g r c.
Proof.
  unfold tile. rewrite lookup_map.
  destruct (g !! r) as [line |]; simpl; [apply lookup_map | reflexivity].
Qed.

(** Two grids of the same shape with the same cells are equal. *)
Lemma grid_ext (g g' : Grid) :
  map length g = map length g' ->
  (forall r c, tile g r c = tile g' r c) ->
  g = g'.
Proof.
  intros Hshape Htile. apply list_eq. intros r.
  pose proof (f_equal (fun l => l !! r) Hshape) as Hr. simpl in Hr.
  rewrite !lookup_map in Hr.
  destruct (g !! r) as [line |] eqn:E, (g' !! r) as [line' |] eqn:E';
    simpl in Hr; try discriminate; [| reflexivity].
  f_equal. apply list_eq. intros c.
  specialize (Htile r c). unfold tile in Htile. rewrite E, E' in Htile.
  exact Htile.
Qed.

Lemma rectangular_tile_outside (g : Grid) (r c : nat) :
  rectangular g -> (Level.width g <= c)%nat -> tile g r c = None.
Proof.
  intros Hrect Hc. unfold tile.
  destruct (g !! r) as [line |] eqn:E; [| reflexivity]. simpl.
  apply lookup_ge_None_2.
  unfold rectangular in Hrect. rewrite Forall_forall in Hrect.
  rewrite (Hrect line); [exact Hc |].
  apply list_elem_of_lookup. exists r. exact E.
Qed.

Lemma tile_outside_rows (g : Grid) (r c : nat) :
  (length g <= r)%nat -> tile g r c = None.
Proof.
  intros Hr. unfold tile. rewrite lookup_ge_None_2 by exact Hr. reflexivity.
Qed.

Lemma new_tile (g : Grid) (tileSize : Q) (r c : nat) :
  rectangular g ->
  tile (Level.grid (Level.new g tileSize)) r c = normalize <$> tile g r c.
Proof.
  intros Hrect. rewrite new_as_pass, visitAll_tile. simpl.
  destruct (decide ((r, c) ∈ cells (length g) (Level.width g))) as [_ | Hout];
    [reflexivity |].
  rewrite elem_of_cells in Hout.
  destruct (Nat.lt_ge_cases r (length g)) as [Hr | Hr].
  - rewrite rectangular_tile_outside by (assumption || lia). reflexivity.
  - rewrite tile_outside_rows by exact Hr. reflexivity.
Qed.

(** C5.  For every rectangular input grid, the grid of the constructed
    Level is the input with every Start code (2) and every spawn marker
    ("M") replaced by Floor (0) and every other cell unchanged; so no cell
    of the normalized grid equals the Start code or the spawn marker. *)
Theorem normalized_grid_has_no_start_or_marker (g : Grid) (tileSize : Q) :
  rectangular g ->
  Level.grid (Level.new g tileSize) = map (map normalize) g /\
  (forall r c v,
     tile (Level.grid (Level.new g tileSize)) r c = Some v ->
     v <> VNum 2 /\ v <> VStr "M") /\
  (forall r c,
     tile g r c = Some (VNum 2) \/ tile g r c = Some (VStr "M") ->
     tile (Level.grid (Level.new g tileSize)) r c = Some (VNum 0)).
Proof.
  intros Hrect. split; [| split].
  - apply grid_ext.
    + rewrite new_shape, map_map.
      apply map_ext. intros line. symmetry. apply length_map.
    + intros r c. rewrite tile_map. apply new_tile. exact Hrect.
  - intros r c v. rewrite new_tile by exact Hrect.
    destruct (tile g r c) as [v0 |]; simpl; [| discriminate].
    intros [= <-]. apply normalize_codes.
  - intros r c Hcode. rewrite new_tile by exact Hrect.
    destruct Hcode as [-> | ->]; reflexivity.
Qed.

Lemma normalized_grid_has_no_start_or_marker_witness :
  rectangular patrolGrid /\
  Level.grid (Level.new patrolGrid 10) = map (map normalize) patrolGrid.
Proof.
  assert (Hrect : rectangular patrolGrid)
    by (unfold rectangular; repeat constructor).
  split; [exact Hrect |].
  apply (normalized_grid_has_no_start_or_marker patrolGrid 10 Hrect).
Defined.

(** ** findStart *)

Lemma findStartInRow_head (g : Grid) (r : nat) (cs : list nat) :
  Level.findStartInRow g r cs =
  head (List.filter (fun p => strict_eq_num (cellAt g (fst p) (snd p)) 2)
          (map (fun c => (r, c)) cs)).
Proof.
  induction cs as [| c cs IH]; simpl; [reflexivity |].
  destruct (strict_eq_num (cellAt g r c) 2); [reflexivity | exact IH].
Qed.

Lemma findStartInRows_head (g : Grid) (ncols : nat) (rs : list nat) :
  Level.findStartInRows g ncols rs =
  head (List.filter (fun p => strict_eq_num (cellAt g (fst p) (snd p)) 2)
          (flat_map (fun r => map (fun c => (r, c)) (seq 0 ncols)) rs)).
Proof.
  induction rs as [| r rs IH]; simpl; [reflexivity |].
  rewrite List.filter_app, findStartInRow_head, IH.
  destruct (List.filter _ (map _ (seq 0 ncols))); reflexivity.
Qed.

(** On any grid, [findStart] returns the first Start cell in row-major
    order. *)
Lemma findStartIn_first (g : Grid) : Level.findStartIn g = firstStartCell g.
Proof. apply findStartInRows_head. Qed.

Lemma new_startCells (g : Grid) (tileSize : Q) :
  startCells (Level.grid (Level.new g tileSize)) = [].
Proof.
  unfold startCells.
  rewrite (shape_length _ _ (new_shape g tileSize)).
  rewrite (shape_width _ _ (new_shape g tileSize)).
  rewrite (filter_ext_in _ (fun _ => false)).
  - induction (cells _ _) as [| q qs IH]; [reflexivity | exact IH].
  - intros [r c] Hin. simpl.
    apply list_elem_of_In, elem_of_cells in Hin as [Hr Hc].
    rewrite new_cellAt by assumption. apply normalize_not_start.
Qed.

(** C8.  For every input grid, [findStart()] on the constructed Level
    returns null: the constructor has turned every Start cell that
    [findStart] scans into Floor. *)
Theorem findStart_after_construction (g : Grid) (tileSize : Q) :
  Level.findStart (Level.new g tileSize) = None.
Proof.
  unfold Level.findStart.
  rewrite findStartIn_first. unfold firstStartCell.
  rewrite new_startCells. reflexivity.
Qed.

(** ** Travel bounds *)

(** The upward scan stops at the first row, going up from [r], whose
    upper neighbour is a wall or is outside the grid. *)
Lemma scanUp_spec (g : Grid) (c r : nat) :
  let a := Level.scanUp g c r in
  (a <= r)%nat /\
  (forall k, (a <= k < r)%nat -> strict_eq_num (cellAt g k c) 1 = false) /\
  (a = O \/ strict_eq_num (cellAt g (a - 1) c) 1 = true).
Proof.
  induction r as [| r IH]; simpl.
  - split; [lia |]. split; [intros k Hk; lia | left; reflexivity].
  - destruct (strict_eq_num (cellAt g r c) 1) eqn:Hwall.
    + split; [lia |]. split; [intros k Hk; lia |].
      right. simpl. rewrite Nat.sub_0_r. exact Hwall.
    + destruct IH as [Hle [Hfree Hstop]].
      split; [lia |]. split; [| exact Hstop].
      intros k Hk. destruct (decide (k = r)) as [-> | Hne]; [exact Hwall |].
      apply Hfree. lia.
Qed.






(** ** Reset *)

Lemma reset_update (o : MovingObstacle.t) : reset (update o) = reset o.
Proof. destruct (update_frame o) as [y' [d ->]]. reflexivity. Qed.

Lemma reset_iter_update (n : nat) (o : MovingObstacle.t) :
  reset (Nat.iter n update o) = reset o.
Proof. destruct (iter_update_frame n o) as [y' [d ->]]. reflexivity. Qed.

Lemma in_spawnAt (g : Grid) (tileSize : Q) (p : nat * nat) (o : MovingObstacle.t) :
  In o (spawnAt g tileSize p) ->
  exists col row minRow maxRow,
    o = MovingObstacle.new col row minRow maxRow tileSize 1.8.
Proof.
  unfold spawnAt. destruct (strict_eq_str _ "M"); simpl; [| tauto].
  intros [<- | []]. eauto.
Qed.

(** Every obstacle of a fresh Level is as its constructor left it. *)
Lemma new_obstacles_fresh (g : Grid) (tileSize : Q) (o : MovingObstacle.t) :
  In o (Level.obstacles (Level.new g tileSize)) ->
  exists col row minRow maxRow,
    o = MovingObstacle.new col row minRow maxRow tileSize 1.8.
Proof.
  rewrite new_obstacles, in_flat_map. intros [p [_ Hin]].
  apply in_spawnAt with (1 := Hin).
Qed.

Lemma iter_updateObstacles (n : nat) (L : Level.t) :
  Nat.iter n Level.updateObstacles L =
  Level.with_obstacles L (map (Nat.iter n update) (Level.obstacles L)).
Proof.
  induction n as [| n IH]; simpl.
  - rewrite map_id. destruct L; reflexivity.
  - rewrite IH. unfold Level.updateObstacles, Level.with_obstacles. simpl.
    rewrite map_map. reflexivity.
Qed.

(** C7.  For every constructed Level and every number of [updateObstacles]
    ticks, [resetObstacles] brings the Level back to its state after
    construction, so the [bounds()] of every obstacle are exactly those it
    had then; [reset] takes the vertical center from the spawn row and sets
    the direction to +1 whatever the obstacle's state was. *)
Theorem reset_restores_construction (g : Grid) (tileSize : Q) (n : nat) :
  let L0 := Level.new g tileSize in
  let L := Level.resetObstacles (Nat.iter n Level.updateObstacles L0) in
  L = L0 /\
  map bounds (Level.obstacles L) = map bounds (Level.obstacles L0) /\
  (forall o : MovingObstacle.t,
     y (reset o) = row o * ts o + ts o / 2 /\ dir (reset o) = 1) /\
  Forall (fun o => y o = row o * ts o + ts o / 2 /\ dir o = 1)
    (Level.obstacles L).
Proof.
  intros L0 L.
  assert (Hback : L = L0).
  { subst L. rewrite iter_updateObstacles.
    unfold Level.resetObstacles, Level.with_obstacles. simpl.
    rewrite map_map.
    rewrite (map_ext_in _ (fun o => o)).
    - rewrite map_id. destruct L0; reflexivity.
    - intros o Hin. rewrite reset_iter_update.
      destruct (new_obstacles_fresh g tileSize o Hin)
        as [col [row [minRow [maxRow ->]]]].
      reflexivity. }
  split; [exact Hback |]. split; [rewrite Hback; reflexivity |].
  split; [intros o; split; reflexivity |].
  rewrite Hback. rewrite Forall_forall. intros o Hin.
  apply list_elem_of_In in Hin.
  destruct (new_obstacles_fresh g tileSize o Hin)
    as [col [row [minRow [maxRow ->]]]].
  split; reflexivity.
Qed.

(** ** Touching rectangles *)

Lemma set_y_dir_size (o : MovingObstacle.t) (y' d : Q) :
  w (set_y_dir o y' d) = w o /\ h (set_y_dir o y' d) = h o.
Proof. split; reflexivity. Qed.

(** In a reachable Level every obstacle has a width and a height that are
    not negative. *)
Lemma reachable_sizes (L : Level.t) :
  reachable L ->
  forall o, In o (Level.obstacles L) -> 0 <= w o /\ 0 <= h o.
Proof.
  induction 1 as [g tileSize Hts | L _ IH | L _ IH]; intros o Hin.
  - destruct (new_obstacles_fresh g tileSize o Hin)
      as [col [row [minRow [maxRow ->]]]].
    simpl. split; lra.
  - simpl in Hin. apply in_map_iff in Hin as [o' [<- Hin]].
    destruct (update_frame o') as [y' [d ->]]. exact (IH o' Hin).
  - simpl in Hin. apply in_map_iff in Hin as [o' [<- Hin]].
    exact (IH o' Hin).
Qed.

(** C10.  The overlap test is inclusive at the boundary: in a reachable
    Level, a player rectangle that only touches an obstacle's box along an
    edge (its right on the box's left, its left on the box's right, its
    bottom on the box's top or its top on the box's bottom) while their
    projections on the other axis meet is reported as a collision, because
    the rejection test uses strict inequalities. *)
Theorem touching_edges_collide
    (L : Level.t) (playerRect : Rect) (o : MovingObstacle.t) :
  reachable L ->
  In o (Level.obstacles L) ->
  left playerRect <= right playerRect ->
  top playerRect <= bottom playerRect ->
  ((right playerRect == left (bounds o) \/ left playerRect == right (bounds o)) /\
   top playerRect <= bottom (bounds o) /\ top (bounds o) <= bottom playerRect ->
   Level.checkObstacleCollision L playerRect = true) /\
  ((bottom playerRect == top (bounds o) \/ top playerRect == bottom (bounds o)) /\
   left playerRect <= right (bounds o) /\ left (bounds o) <= right playerRect ->
   Level.checkObstacleCollision L playerRect = true) /\
  (right playerRect == left (bounds o) ->
   Qltb (right playerRect) (left (bounds o)) = false).
Proof.
  intros Hreach Hin Hx Hy.
  destruct (reachable_sizes L Hreach o Hin) as [Hw Hh].
  pose proof (half_nonneg _ Hw) as Hw2.
  pose proof (half_nonneg _ Hh) as Hh2.
  assert (Hbx : left (bounds o) <= right (bounds o))
    by (cbn [bounds left right]; lra).
  assert (Hby : top (bounds o) <= bottom (bounds o))
    by (cbn [bounds top bottom]; lra).
  split; [| split].
  - intros [Htouch [Hy1 Hy2]].
    apply hitsAny_true. exists o. split; [exact Hin |].
    unfold overlaps. destruct Htouch as [Ht | Ht]; lra.
  - intros [Htouch [Hx1 Hx2]].
    apply hitsAny_true. exists o. split; [exact Hin |].
    unfold overlaps. destruct Htouch as [Ht | Ht]; lra.
  - intros Ht. apply Qltb_ge. lra.
Qed.

Lemma touching_edges_collide_witness :
  reachable patrolLevel /\
  In patrolObstacle (Level.obstacles patrolLevel) /\
  right (mkRect 15 20 21 26) == left (bounds patrolObstacle) /\
  Level.checkObstacleCollision patrolLevel (mkRect 15 20 21 26) = true.
Proof.
  assert (Hreach : reachable patrolLevel)
    by (apply reach_new; reflexivity).
  assert (Hin : In patrolObstacle (Level.obstacles patrolLevel))
    by (vm_compute; left; reflexivity).
  split; [exact Hreach |]. split; [exact Hin |].
  split; [vm_compute; reflexivity |].
  destruct (touching_edges_collide patrolLevel (mkRect 15 20 21 26)
              patrolObstacle Hreach Hin) as [Hside _].
  - vm_compute. discriminate.
  - vm_compute. discriminate.
  - apply Hside. split; [left; vm_compute; reflexivity |].
    split; vm_compute; discriminate.
Defined.

(** ** Loading level entries *)

Lemma malformed_getGrid (levelEntry : value) :
  malformed levelEntry -> getGrid levelEntry = VUndefined.
Proof.
  intros [_ Hgrid]. destruct levelEntry; try reflexivity.
  simpl in *. destruct (lookupField "grid" fields); [discriminate | reflexivity].
Qed.

(** C9.  A malformed level entry (neither an array nor an object with a
    grid field, like the empty object) does not make loading fail: it
    yields the Level of the fallback grid, which has 2 rows, 2 columns and
    a wall in every cell. *)
Theorem malformed_entry_falls_back (levelEntry : value) :
  malformed levelEntry ->
  exists L : Level.t,
    loadEntry levelEntry = Some L /\
    L = Level.new fallbackGrid TS /\
    Level.rows L = 2%nat /\
    Level.cols L = Some 2%nat /\
    (forall r c, (r < 2)%nat -> (c < 2)%nat -> Level.isWall L r c = Some true) /\
    loadEntry (VObj []) = Some L.
Proof.
  intros Hbad. exists (Level.new fallbackGrid TS).
  split.
  - unfold loadEntry. rewrite (malformed_getGrid _ Hbad).
    destruct Hbad as [-> _]. simpl. rewrite Bool.andb_false_r. reflexivity.
  - split; [reflexivity |]. split; [reflexivity |]. split; [reflexivity |].
    split; [| reflexivity].
    intros [| [| r]] [| [| c]] Hr Hc; try lia; reflexivity.
Qed.

Lemma malformed_entry_falls_back_witness :
  malformed (VObj []) /\
  exists L : Level.t,
    loadEntry (VObj []) = Some L /\
    Level.rows L = 2%nat /\
    Level.cols L = Some 2%nat /\
    Level.isWall L 1 1 = Some true.
Proof.
  assert (Hbad : malformed (VObj [])) by (split; reflexivity).
  split; [exact Hbad |].
  destruct (malformed_entry_falls_back (VObj []) Hbad)
    as [L [Hload [_ [Hrows [Hcols [Hwall _]]]]]].
  exists L. split; [exact Hload |]. split; [exact Hrows |].
  split; [exact Hcols |]. apply Hwall; lia.
Defined.

Example patrol_obstacles :
  Level.obstacles patrolLevel = [patrolObstacle].
Proof. vm_compute. reflexivity. Qed.

Example two_starts :
  Level.start (Level.new twoStartsGrid 10) = Some (0, 1)%nat.
Proof. reflexivity. Qed.

(** * Further properties of the code *)

(** ** Bounds checks and tile queries *)

Lemma cols_nonempty (L : Level.t) :
  Level.grid L <> [] -> Level.cols L = Some (Level.width (Level.grid L)).
Proof.
  unfold Level.cols, Level.width.
  destruct (Level.grid L) as [| line rest]; [congruence | reflexivity].
Qed.

Lemma rows_pos_nonempty (L : Level.t) (r : Z) :
  (0 <= r)%Z -> (r < Z.of_nat (Level.rows L))%Z -> Level.grid L <> [].
Proof.
  unfold Level.rows. intros H0 Hr Hnil. rewrite Hnil in Hr. simpl in Hr. lia.
Qed.

(** X1.  [inBounds] never raises an error, not even on an empty grid, and
    answers true exactly for indices inside the grid; a true answer makes
    [tileAt] safe, and on a rectangular grid [tileAt] then returns a cell of
    the grid and not [undefined]. *)
Theorem inBounds_guards_tileAt (L : Level.t) (r c : Z) :
  exists b : bool,
    Level.inBounds L r c = Some b /\
    (b = true <->
     (0 <= r < Z.of_nat (Level.rows L))%Z /\
     (0 <= c < Z.of_nat (Level.width (Level.grid L)))%Z) /\
    (b = true ->
     Level.tileAt L (Z.to_nat r) (Z.to_nat c)
     = Some (cellAt (Level.grid L) (Z.to_nat r) (Z.to_nat c))) /\
    (b = true -> rectangular (Level.grid L) ->
     exists v, tile (Level.grid L) (Z.to_nat r) (Z.to_nat c) = Some v /\
               Level.tileAt L (Z.to_nat r) (Z.to_nat c) = Some v).
Proof.
  unfold Level.inBounds.
  destruct (0 <=? r)%Z eqn:Hr0; simpl;
    [| exists false; apply Z.leb_gt in Hr0;
       repeat split; try discriminate; lia].
  destruct (0 <=? c)%Z eqn:Hc0; simpl;
    [| exists false; apply Z.leb_gt in Hc0;
       repeat split; try discriminate; lia].
  destruct (r <? Z.of_nat (Level.rows L))%Z eqn:Hr1; simpl;
    [| exists false; apply Z.ltb_ge in Hr1;
       repeat split; try discriminate; lia].
  apply Z.leb_le in Hr0, Hc0. apply Z.ltb_lt in Hr1.
  rewrite (cols_nonempty L (rows_pos_nonempty L r Hr0 Hr1)). simpl.
  exists (c <? Z.of_nat (Level.width (Level.grid L)))%Z.
  split; [reflexivity |].
  assert (Hrow : (Z.to_nat r < length (Level.grid L))%nat)
    by (unfold Level.rows in Hr1; lia).
  assert (Hsafe : Level.tileAt L (Z.to_nat r) (Z.to_nat c)
                  = Some (cellAt (Level.grid L) (Z.to_nat r) (Z.to_nat c))).
  { unfold Level.tileAt.
    destruct (Nat.ltb_spec (Z.to_nat r) (length (Level.grid L)));
      [reflexivity | lia]. }
  split; [rewrite Z.ltb_lt; lia |].
  split; [intros _; exact Hsafe |].
  intros Hc1 Hrect. apply Z.ltb_lt in Hc1.
  destruct (lookup_lt_is_Some_2 (Level.grid L) (Z.to_nat r) Hrow) as [line Hline].
  assert (Hlen : length line = Level.width (Level.grid L)).
  { unfold rectangular in Hrect. rewrite Forall_forall in Hrect.
    apply Hrect, list_elem_of_lookup. exists (Z.to_nat r). exact Hline. }
  destruct (lookup_lt_is_Some_2 line (Z.to_nat c)) as [v Hv]; [lia |].
  exists v.
  assert (Htile : tile (Level.grid L) (Z.to_nat r) (Z.to_nat c) = Some v)
    by (unfold tile; rewrite Hline; exact Hv).
  split; [exact Htile |].
  rewrite Hsafe, cellAt_tile, Htile. reflexivity.
Qed.

(** X2.  [tileAt], [isWall] and [isGoal] raise an error for a row index
    beyond the last row; for a column beyond the end of an existing row
    [tileAt] yields [undefined] and [isWall] and [isGoal] answer false
    without an error.  No cell is both wall and goal. *)
Theorem tile_queries_outside_grid (L : Level.t) (r c : nat) :
  ((length (Level.grid L) <= r)%nat ->
   Level.tileAt L r c = None /\ Level.isWall L r c = None /\
   Level.isGoal L r c = None) /\
  ((r < length (Level.grid L))%nat -> tile (Level.grid L) r c = None ->
   Level.tileAt L r c = Some VUndefined /\
   Level.isWall L r c = Some false /\ Level.isGoal L r c = Some false) /\
  (Level.isWall L r c = Some true -> Level.isGoal L r c = Some false).
Proof.
  unfold Level.isWall, Level.isGoal, Level.tileAt.
  split; [| split].
  - intros Hr. destruct (Nat.ltb_spec r (length (Level.grid L))); [lia |].
    repeat split; reflexivity.
  - intros Hr Hnone. destruct (Nat.ltb_spec r (length (Level.grid L))); [| lia].
    rewrite cellAt_tile, Hnone. repeat split; reflexivity.
  - destruct (r <? length (Level.grid L))%nat; simpl; [| discriminate].
    intros [= Hw]. apply strict_eq_num_inv in Hw. rewrite Hw. reflexivity.
Qed.

(** ** What construction keeps *)

Lemma normalize_goal (v : value) :
  strict_eq_num (normalize v) 3 = strict_eq_num v 3.
Proof.
  unfold normalize.
  destruct (strict_eq_num v 2) eqn:E2; simpl.
  - apply strict_eq_num_inv in E2. subst v. reflexivity.
  - destruct (strict_eq_str v "M") eqn:EM; [| reflexivity].
    apply strict_eq_str_inv in EM. subst v. reflexivity.
Qed.

Lemma new_ts (g : Grid) (tileSize : Q) :
  Level.ts (Level.new g tileSize) = tileSize.
Proof. rewrite new_as_pass, visitAll_ts. reflexivity. Qed.

Lemma new_cellAt_any (g : Grid) (tileSize : Q) (r c : nat) :
  cellAt (Level.grid (Level.new g tileSize)) r c = cellAt g r c \/
  cellAt (Level.grid (Level.new g tileSize)) r c = normalize (cellAt g r c).
Proof.
  rewrite new_as_pass, visitAll_cellAt. simpl.
  destruct (decide _); [right | left]; reflexivity.
Qed.

(** X3.  Construction keeps the shape of the input grid, also of a ragged
    one: the same number of rows, the same length of every row, hence the
    same [rows()], [cols()], [pixelWidth()] and [pixelHeight()] as the input
    dictates; the tile size is the one passed in. *)
Theorem construction_keeps_dimensions (g : Grid) (tileSize : Q) :
  let L := Level.new g tileSize in
  map length (Level.grid L) = map length g /\
  Level.rows L = length g /\
  Level.cols L = length <$> g !! O /\
  Level.ts L = tileSize /\
  Level.pixelHeight L = num (length g) * tileSize /\
  Level.pixelWidth L = (fun n => num n * tileSize) <$> (length <$> g !! O).
Proof.
  intros L. pose proof (new_shape g tileSize) as Hshape. fold L in Hshape.
  assert (Hrows : Level.rows L = length g) by apply (shape_length _ _ Hshape).
  assert (Hcols : Level.cols L = length <$> g !! O).
  { unfold Level.cols. rewrite <- !lookup_map, Hshape. reflexivity. }
  assert (Hts : Level.ts L = tileSize) by apply new_ts.
  split; [exact Hshape |]. split; [exact Hrows |]. split; [exact Hcols |].
  split; [exact Hts |].
  unfold Level.pixelHeight, Level.pixelWidth.
  rewrite Hrows, Hcols, Hts. split; reflexivity.
Qed.

(** X4.  Construction never adds or removes a wall or a goal: at every
    position, inside the grid or not, [isWall] and [isGoal] of the
    constructed Level answer as they would on the raw input grid. *)
Theorem construction_keeps_walls_and_goals
    (g : Grid) (tileSize : Q) (r c : nat) :
  let raw := {| Level.grid := g; Level.ts := tileSize;
                Level.obstacles := []; Level.start := None |} in
  Level.isWall (Level.new g tileSize) r c = Level.isWall raw r c /\
  Level.isGoal (Level.new g tileSize) r c = Level.isGoal raw r c.
Proof.
  intros raw. unfold Level.isWall, Level.isGoal, Level.tileAt. simpl.
  rewrite (shape_length _ _ (new_shape g tileSize)).
  destruct (r <? length g)%nat; simpl; [| split; reflexivity].
  destruct (new_cellAt_any g tileSize r c) as [-> | ->];
    [split; reflexivity |].
  rewrite normalize_wall, normalize_goal. split; reflexivity.
Qed.

(** ** What construction records *)

Lemma spawnAt_marker (g : Grid) (tileSize : Q) (ps : list (nat * nat)) :
  flat_map (spawnAt g tileSize) ps =
  map (fun p => MovingObstacle.new (num (snd p)) (num (fst p))
                  (num (Level.scanUp g (snd p) (fst p)))
                  (num (Level.scanDown (length g) g (snd p) (fst p)))
                  tileSize 1.8)
    (List.filter (fun p => strict_eq_str (cellAt g (fst p) (snd p)) "M") ps).
Proof.
  induction ps as [| p ps IH]; simpl; [reflexivity |].
  unfold spawnAt at 1.
  destruct (strict_eq_str (cellAt g (fst p) (snd p)) "M"); simpl;
    rewrite IH; reflexivity.
Qed.

(** X5.  The constructor creates exactly one obstacle for each spawn marker
    it scans, in row-major order of the markers; each sits at the column and
    row of its marker, has the Level's tile size, the default speed 1.8 and
    starts moving down. *)
Theorem one_obstacle_per_marker (g : Grid) (tileSize : Q) :
  let os := Level.obstacles (Level.new g tileSize) in
  map (fun o => (col o, row o)) os
  = map (fun p => (num (snd p), num (fst p))) (markerCells g) /\
  length os = length (markerCells g) /\
  Forall (fun o => ts o = tileSize /\ speed o = 1.8 /\ dir o = 1) os.
Proof.
  intros os. subst os. rewrite new_obstacles, spawnAt_marker.
  fold (markerCells g).
  split; [| split].
  - rewrite map_map. reflexivity.
  - apply length_map.
  - rewrite Forall_forall. intros o Hin.
    apply list_elem_of_In, in_map_iff in Hin as [p [<- _]].
    repeat split; reflexivity.
Qed.

Lemma new_start_last (g : Grid) (tileSize : Q) :
  Level.start (Level.new g tileSize) = last (startCells g).
Proof.
  rewrite new_as_pass, visitAll_start by apply NoDup_cells. simpl.
  unfold startCells. destruct (last _); reflexivity.
Qed.

Lemma last_None_nil {A : Type} (l : list A) : last l = None <-> l = [].
Proof.
  split; [| intros ->; reflexivity].
  destruct l as [| a l]; [reflexivity |].
  rewrite last_cons. destruct (last l); discriminate.
Qed.

Lemma last_elem {A : Type} (l : list A) (x : A) : last l = Some x -> In x l.
Proof.
  intros H. apply last_Some in H as [l' ->].
  apply in_or_app. right. left. reflexivity.
Qed.

(** X6.  The start field is null exactly when the scanned input has no Start
    cell.  When it is a cell, that cell is inside the grid, held the Start
    code in the input and is Floor in the constructed Level, so [isWall]
    and [isGoal] are both false there. *)
Theorem start_cell_is_floor (g : Grid) (tileSize : Q) :
  let L := Level.new g tileSize in
  (Level.start L = None <-> startCells g = []) /\
  (forall r c, Level.start L = Some (r, c) ->
     (r < length g)%nat /\ (c < Level.width g)%nat /\
     cellAt g r c = VNum 2 /\
     Level.tileAt L r c = Some (VNum 0) /\
     Level.isWall L r c = Some false /\
     Level.isGoal L r c = Some false).
Proof.
  intros L. subst L. rewrite new_start_last.
  split; [apply last_None_nil |].
  intros r c Hlast. apply last_elem in Hlast.
  unfold startCells in Hlast. apply filter_In in Hlast as [Hin Hcode].
  apply list_elem_of_In, elem_of_cells in Hin as [Hr Hc].
  simpl in Hcode. apply strict_eq_num_inv in Hcode.
  assert (Htile : Level.tileAt (Level.new g tileSize) r c = Some (VNum 0)).
  { unfold Level.tileAt.
    rewrite (shape_length _ _ (new_shape g tileSize)).
    destruct (Nat.ltb_spec r (length g)); [| lia].
    rewrite new_cellAt, Hcode by assumption. reflexivity. }
  split; [exact Hr |]. split; [exact Hc |]. split; [exact Hcode |].
  split; [exact Htile |].
  unfold Level.isWall, Level.isGoal. rewrite Htile. split; reflexivity.
Qed.

(** ** findStart on any grid *)

Lemma findStartInRow_seq (g : Grid) (r a n : nat) :
  match Level.findStartInRow g r (seq a n) with
  | Some (r', c) =>
      r' = r /\ (a <= c < a + n)%nat /\ cellAt g r c = VNum 2 /\
      forall c', (a <= c' < c)%nat -> cellAt g r c' <> VNum 2
  | None => forall c', (a <= c' < a + n)%nat -> cellAt g r c' <> VNum 2
  end.
Proof.
  revert a. induction n as [| n IH]; intros a; simpl.
  - intros c' Hc'. lia.
  - destruct (strict_eq_num (cellAt g r a) 2) eqn:Hcode.
    + apply strict_eq_num_inv in Hcode.
      split; [reflexivity |]. split; [lia |]. split; [exact Hcode |].
      intros c' Hc'. lia.
    + assert (Hnot : cellAt g r a <> VNum 2).
      { intros Heq. apply strict_eq_num_inv in Heq. congruence. }
      specialize (IH (S a)).
      destruct (Level.findStartInRow g r (seq (S a) n)) as [[r' c] |].
      * destruct IH as [-> [Hc [Hcell Hbefore]]].
        split; [reflexivity |]. split; [lia |]. split; [exact Hcell |].
        intros c' Hc'. destruct (decide (c' = a)) as [-> | Hne];
          [exact Hnot | apply Hbefore; lia].
      * intros c' Hc'. destruct (decide (c' = a)) as [-> | Hne];
          [exact Hnot | apply IH; lia].
Qed.

Lemma findStartInRows_seq (g : Grid) (ncols a n : nat) :
  match Level.findStartInRows g ncols (seq a n) with
  | Some (r, c) =>
      (a <= r < a + n)%nat /\ (c < ncols)%nat /\ cellAt g r c = VNum 2 /\
      (forall c', (c' < c)%nat -> cellAt g r c' <> VNum 2) /\
      (forall r' c', (a <= r' < r)%nat -> (c' < ncols)%nat ->
                     cellAt g r' c' <> VNum 2)
  | None =>
      forall r' c', (a <= r' < a + n)%nat -> (c' < ncols)%nat ->
                    cellAt g r' c' <> VNum 2
  end.
Proof.
  revert a. induction n as [| n IH]; intros a; simpl.
  - intros r' c' Hr'. lia.
  - pose proof (findStartInRow_seq g a O ncols) as Hrow.
    destruct (Level.findStartInRow g a (seq 0 ncols)) as [[r c] |].
    + destruct Hrow as [-> [Hc [Hcell Hbefore]]].
      split; [lia |]. split; [lia |]. split; [exact Hcell |].
      split; [intros c' Hc'; apply Hbefore; lia |].
      intros r' c' Hr'. lia.
    + specialize (IH (S a)).
      destruct (Level.findStartInRows g ncols (seq (S a) n)) as [[r c] |].
      * destruct IH as [Hr [Hc [Hcell [Hbefore Habove]]]].
        split; [lia |]. split; [exact Hc |]. split; [exact Hcell |].
        split; [exact Hbefore |].
        intros r' c' Hr' Hc'. destruct (decide (r' = a)) as [-> | Hne];
          [apply Hrow; lia | apply Habove; lia].
      * intros r' c' Hr' Hc'. destruct (decide (r' = a)) as [-> | Hne];
          [apply Hrow; lia | apply IH; lia].
Qed.

(** X7.  On any Level, whatever its grid holds, [findStart] returns the
    first cell in row-major order, among the [rows()] by [cols()] cells it
    scans, that holds the Start code: no cell of an earlier row and no
    earlier cell of the same row holds it.  It returns null exactly when
    none of the scanned cells holds it. *)
Theorem findStart_first_in_row_major (L : Level.t) :
  let g := Level.grid L in
  (forall r c, Level.findStart L = Some (r, c) ->
     (r < length g)%nat /\ (c < Level.width g)%nat /\
     cellAt g r c = VNum 2 /\
     (forall c', (c' < c)%nat -> cellAt g r c' <> VNum 2) /\
     (forall r' c', (r' < r)%nat -> (c' < Level.width g)%nat ->
                    cellAt g r' c' <> VNum 2)) /\
  (Level.findStart L = None <->
   forall r c, (r < length g)%nat -> (c < Level.width g)%nat ->
               cellAt g r c <> VNum 2).
Proof.
  intros g. unfold Level.findStart, Level.findStartIn. fold g.
  pose proof (findStartInRows_seq g (Level.width g) O (length g)) as Hscan.
  destruct (Level.findStartInRows g (Level.width g) (seq 0 (length g)))
    as [[r0 c0] |].
  - destruct Hscan as [Hr [Hc [Hcell [Hbefore Habove]]]].
    split.
    + intros r c [= <- <-].
      split; [lia |]. split; [exact Hc |]. split; [exact Hcell |].
      split; [exact Hbefore |].
      intros r' c' Hr' Hc'. apply Habove; [lia | exact Hc'].
    + split; [discriminate |].
      intros Hnone. exfalso. apply (Hnone r0 c0); [lia | exact Hc | exact Hcell].
  - split; [discriminate |].
    split; [| reflexivity].
    intros _ r c Hr Hc. apply Hscan; [lia | exact Hc].
Qed.

(** ** The patrol invariant *)

Lemma scanDown_ge (fuel : nat) (g : Grid) (c r : nat) :
  (r <= Level.scanDown fuel g c r)%nat.
Proof.
  revert r. induction fuel as [| fuel IH]; intros r; simpl; [lia |].
  destruct (_ && _); [| lia].
  specialize (IH (r + 1)%nat). lia.
Qed.

Lemma scanUp_le (g : Grid) (c r : nat) : (Level.scanUp g c r <= r)%nat.
Proof. apply scanUp_spec. Qed.

Lemma new_patrolling (col row minRow maxRow ts speed : Q) :
  0 < ts -> minRow <= row <= maxRow ->
  patrolling (MovingObstacle.new col row minRow maxRow ts speed).
Proof.
  intros Hts Hrow. unfold patrolling.
  pose proof (new_within col row minRow maxRow ts speed Hts Hrow) as Hy.
  cbn [MovingObstacle.new MovingObstacle.ts MovingObstacle.row
       MovingObstacle.minRow MovingObstacle.maxRow MovingObstacle.x
       MovingObstacle.col MovingObstacle.w MovingObstacle.h
       MovingObstacle.minY MovingObstacle.maxY MovingObstacle.y
       MovingObstacle.dir] in *.
  repeat (split; [first [assumption | reflexivity | tauto] |]).
  left. reflexivity.
Qed.

Lemma update_patrolling (o : MovingObstacle.t) :
  patrolling o -> patrolling (update o).
Proof.
  intros (Hts & Hrow & Hx & Hw & Hh & Hmin & Hmax & [Hlo Hhi] & Hdir).
  assert (Hrange : minY o <= maxY o) by (apply Qle_trans with (y o); assumption).
  pose proof (update_within o Hrange) as Hy.
  unfold patrolling. unfold update in *.
  destruct (Qle_bool (maxY o) _);
    [| destruct (Qle_bool _ (minY o))];
    cbn [set_y_dir MovingObstacle.ts MovingObstacle.row
         MovingObstacle.minRow MovingObstacle.maxRow MovingObstacle.x
         MovingObstacle.col MovingObstacle.w MovingObstacle.h
         MovingObstacle.minY MovingObstacle.maxY MovingObstacle.y
         MovingObstacle.dir] in *;
    repeat (split; [assumption |]); try assumption.
  - right. reflexivity.
  - left. reflexivity.
Qed.

Lemma reset_patrolling (o : MovingObstacle.t) :
  patrolling o -> patrolling (reset o).
Proof.
  intros (Hts & Hrow & Hx & Hw & Hh & Hmin & Hmax & _ & _).
  unfold patrolling, reset.
  cbn [set_y_dir MovingObstacle.ts MovingObstacle.row
       MovingObstacle.minRow MovingObstacle.maxRow MovingObstacle.x
       MovingObstacle.col MovingObstacle.w MovingObstacle.h
       MovingObstacle.minY MovingObstacle.maxY MovingObstacle.y
       MovingObstacle.dir].
  repeat (split; [assumption |]).
  split; [| left; reflexivity].
  rewrite Hmin, Hmax.
  assert (0 <= ts o) as Hts' by (apply Qlt_le_weak; exact Hts).
  destruct Hrow as [Hlo Hhi].
  pose proof (Qmult_le_compat_r _ _ (ts o) Hlo Hts').
  pose proof (Qmult_le_compat_r _ _ (ts o) Hhi Hts').
  split; lra.
Qed.

Lemma spawn_patrolling (g : Grid) (tileSize : Q) (p : nat * nat)
    (o : MovingObstacle.t) :
  0 < tileSize -> In o (spawnAt g tileSize p) -> patrolling o.
Proof.
  intros Hts. unfold spawnAt.
  destruct (strict_eq_str _ "M"); simpl; [| tauto].
  intros [<- | []]. apply new_patrolling; [exact Hts |].
  split; apply num_le; [apply scanUp_le | apply scanDown_ge].
Qed.

Lemma reachable_patrolling (L : Level.t) :
  reachable L -> forall o, In o (Level.obstacles L) -> patrolling o.
Proof.
  induction 1 as [g tileSize Hts | L _ IH | L _ IH]; intros o Hin.
  - rewrite new_obstacles, in_flat_map in Hin. destruct Hin as [p [_ Hin]].
    apply spawn_patrolling with (1 := Hts) (2 := Hin).
  - simpl in Hin. apply in_map_iff in Hin as [o' [<- Hin]].
    apply update_patrolling, IH, Hin.
  - simpl in Hin. apply in_map_iff in Hin as [o' [<- Hin]].
    apply reset_patrolling, IH, Hin.
Qed.

(** X8.  In a Level built with a positive tile size, after any ticks and
    resets, every obstacle has its center inside its travel range and its
    box inside its corridor: horizontally inside the tile column it was
    spawned in, vertically between the top of row [minRow] and the bottom
    of row [maxRow]. *)
Theorem obstacles_stay_in_corridor (L : Level.t) (o : MovingObstacle.t) :
  reachable L ->
  In o (Level.obstacles L) ->
  minY o <= y o <= maxY o /\
  col o * ts o <= left (bounds o) /\
  right (bounds o) <= (col o + 1) * ts o /\
  minRow o * ts o <= top (bounds o) /\
  bottom (bounds o) <= (maxRow o + 1) * ts o.
Proof.
  intros Hreach Hin.
  destruct (reachable_patrolling L Hreach o Hin)
    as (Hts & Hrow & Hx & Hw & Hh & Hmin & Hmax & [Hlo Hhi] & _).
  split; [split; assumption |].
  cbn [bounds left right top bottom].
  rewrite Hmin in Hlo. rewrite Hmax in Hhi. rewrite Hx, Hw, Hh.
  assert (H1 : ts o / 2 == ts o * (1 # 2)) by field.
  assert (H2 : ts o * 0.8 / 2 == ts o * (4 # 10)) by field.
  repeat split; lra.
Qed.

Lemma obstacles_stay_in_corridor_witness :
  reachable (Level.updateObstacles patrolLevel) /\
  In (update patrolObstacle)
     (Level.obstacles (Level.updateObstacles patrolLevel)) /\
  minY (update patrolObstacle) <= y (update patrolObstacle)
    <= maxY (update patrolObstacle).
Proof.
  assert (Hreach : reachable (Level.updateObstacles patrolLevel))
    by (apply reach_update, reach_new; reflexivity).
  assert (Hin : In (update patrolObstacle)
                  (Level.obstacles (Level.updateObstacles patrolLevel)))
    by (vm_compute; left; reflexivity).
  split; [exact Hreach |]. split; [exact Hin |].
  apply (obstacles_stay_in_corridor _ _ Hreach Hin).
Defined.

(** X9.  The direction of an obstacle is always +1 or -1: it is +1 after
    construction and after [reset], and [update] either keeps it or sets it
    to one of the two. *)
Theorem direction_is_a_unit
    (col row minRow maxRow ts speed : Q) (steps : list bool) :
  let o := fold_left (fun o tick => if tick : bool then update o else reset o)
             steps (MovingObstacle.new col row minRow maxRow ts speed) in
  dir o = 1 \/ dir o = -1.
Proof.
  intros o. subst o.
  assert (Hnew : dir (MovingObstacle.new col row minRow maxRow ts speed) = 1
                 \/ dir (MovingObstacle.new col row minRow maxRow ts speed) = -1)
    by (left; reflexivity).
  revert Hnew.
  generalize (MovingObstacle.new col row minRow maxRow ts speed) as o.
  induction steps as [| tick steps IH]; intros o Hdir; [exact Hdir |].
  simpl. apply IH. destruct tick.
  - unfold update.
    destruct (Qle_bool (maxY o) _); [right; reflexivity |].
    destruct (Qle_bool _ (minY o)); [left; reflexivity | exact Hdir].
  - left. reflexivity.
Qed.

(** ** Motion between the bounds *)

Lemma update_at_max (o : MovingObstacle.t) :
  Qle_bool (maxY o) (y o + speed o * dir o) = true ->
  update o = set_y_dir o (maxY o) (-1).
Proof. intros H. unfold update. rewrite H. reflexivity. Qed.

Lemma update_at_min (o : MovingObstacle.t) :
  Qle_bool (maxY o) (y o + speed o * dir o) = false ->
  Qle_bool (y o + speed o * dir o) (minY o) = true ->
  update o = set_y_dir o (minY o) 1.
Proof. intros H1 H2. unfold update. rewrite H1, H2. reflexivity. Qed.

Lemma update_inside (o : MovingObstacle.t) :
  Qle_bool (maxY o) (y o + speed o * dir o) = false ->
  Qle_bool (y o + speed o * dir o) (minY o) = false ->
  update o = set_y_dir o (y o + speed o * dir o) (dir o).
Proof. intros H1 H2. unfold update. rewrite H1, H2. reflexivity. Qed.

(** X10.  An obstacle with positive speed never turns around before it
    reaches a bound.  Started inside its range and moving down, after [n]
    ticks it either has been clamped to [maxY] with direction -1 at some
    tick, or is still moving down and is no higher than it started; moving
    up, it either has been clamped to [minY] with direction +1, or is still
    moving up and is no lower than it started. *)
Theorem no_turn_before_bound (o : MovingObstacle.t) (n : nat) :
  0 < speed o ->
  minY o <= y o <= maxY o ->
  (dir o = 1 ->
   (exists k, (k <= n)%nat /\
      y (Nat.iter k update o) = maxY o /\ dir (Nat.iter k update o) = -1) \/
   (dir (Nat.iter n update o) = 1 /\ y o <= y (Nat.iter n update o))) /\
  (dir o = -1 ->
   (exists k, (k <= n)%nat /\
      y (Nat.iter k update o) = minY o /\ dir (Nat.iter k update o) = 1) \/
   (dir (Nat.iter n update o) = -1 /\ y (Nat.iter n update o) <= y o)).
Proof.
  intros Hspeed [Hlo Hhi]. split; intros Hdir.
  - induction n as [| n IH].
    + right. split; [exact Hdir | apply Qle_refl].
    + destruct IH as [[k [Hk Hclamp]] | [Hd Hy]].
      * left. exists k. split; [lia | exact Hclamp].
      * change (Nat.iter (S n) update o) with (update (Nat.iter n update o)).
        destruct (iter_update_frame n o) as [y' [d E]].
        rewrite E in Hd, Hy |- *. cbn [set_y_dir y dir] in Hd, Hy. subst d.
        destruct (Qle_bool (maxY (set_y_dir o y' 1))
                    (y (set_y_dir o y' 1)
                     + speed (set_y_dir o y' 1) * dir (set_y_dir o y' 1)))
          eqn:Hmax.
        -- left. exists (S n). split; [lia |].
           change (Nat.iter (S n) update o) with (update (Nat.iter n update o)).
           rewrite E, (update_at_max _ Hmax). split; reflexivity.
        -- right.
           destruct (Qle_bool
                       (y (set_y_dir o y' 1)
                        + speed (set_y_dir o y' 1) * dir (set_y_dir o y' 1))
                       (minY (set_y_dir o y' 1))) eqn:Hmin.
           ++ rewrite (update_at_min _ Hmax Hmin).
              apply Qle_bool_iff in Hmin.
              cbn [set_y_dir y dir speed minY] in *.
              split; [reflexivity | lra].
           ++ rewrite (update_inside _ Hmax Hmin).
              cbn [set_y_dir y dir speed]. split; [reflexivity | lra].
  - induction n as [| n IH].
    + right. split; [exact Hdir | apply Qle_refl].
    + destruct IH as [[k [Hk Hclamp]] | [Hd Hy]].
      * left. exists k. split; [lia | exact Hclamp].
      * change (Nat.iter (S n) update o) with (update (Nat.iter n update o)).
        destruct (iter_update_frame n o) as [y' [d E]].
        rewrite E in Hd, Hy |- *. cbn [set_y_dir y dir] in Hd, Hy. subst d.
        destruct (Qle_bool (maxY (set_y_dir o y' (-1)))
                    (y (set_y_dir o y' (-1))
                     + speed (set_y_dir o y' (-1)) * dir (set_y_dir o y' (-1))))
          eqn:Hmax.
        -- apply Qle_bool_iff in Hmax.
           cbn [set_y_dir y dir speed maxY] in Hmax. lra.
        -- destruct (Qle_bool
                       (y (set_y_dir o y' (-1))
                        + speed (set_y_dir o y' (-1)) * dir (set_y_dir o y' (-1)))
                       (minY (set_y_dir o y' (-1)))) eqn:Hmin.
           ++ left. exists (S n). split; [lia |].
              change (Nat.iter (S n) update o)
                with (update (Nat.iter n update o)).
              rewrite E, (update_at_min _ Hmax Hmin). split; reflexivity.
           ++ right. rewrite (update_inside _ Hmax Hmin).
              cbn [set_y_dir y dir speed]. split; [reflexivity | lra].
Qed.

Lemma no_turn_before_bound_witness :
  0 < speed patrolObstacle /\
  minY patrolObstacle <= y patrolObstacle <= maxY patrolObstacle /\
  ((exists k, (k <= 9)%nat /\
      y (Nat.iter k update patrolObstacle) = maxY patrolObstacle /\
      dir (Nat.iter k update patrolObstacle) = -1) \/
   (dir (Nat.iter 9 update patrolObstacle) = 1 /\
    y patrolObstacle <= y (Nat.iter 9 update patrolObstacle))).
Proof.
  assert (Hspeed : 0 < speed patrolObstacle) by reflexivity.
  assert (Hy : minY patrolObstacle <= y patrolObstacle <= maxY patrolObstacle)
    by (split; vm_compute; discriminate).
  split; [exact Hspeed |]. split; [exact Hy |].
  destruct (no_turn_before_bound patrolObstacle 9 Hspeed Hy) as [Hdown _].
  apply Hdown. reflexivity.
Defined.

Lemma update_single_row (o : MovingObstacle.t) :
  minY o = maxY o -> y (update o) = maxY o.
Proof.
  intros Hsame. unfold update.
  destruct (Qle_bool (maxY o) _) eqn:Hmax; [reflexivity |].
  destruct (Qle_bool _ (minY o)) eqn:Hmin; [exact Hsame |].
  apply Qle_bool_false in Hmax, Hmin. rewrite Hsame in Hmin. lra.
Qed.

(** X11.  An obstacle whose travel range is a single row (a wall or the
    grid edge directly above and below its marker) never moves: after any
    number of ticks its [bounds()] are those it was constructed with,
    whatever its speed. *)
Theorem single_row_obstacle_stays (col row ts speed : Q) (n : nat) :
  bounds (Nat.iter n update (MovingObstacle.new col row row row ts speed))
  = bounds (MovingObstacle.new col row row row ts speed).
Proof.
  set (o := MovingObstacle.new col row row row ts speed).
  assert (Hy : y (Nat.iter n update o) = y o).
  { destruct n as [| n]; [reflexivity |]. simpl.
    destruct (iter_update_frame n o) as [y' [d E]]. rewrite E.
    apply (update_single_row (set_y_dir o y' d)). reflexivity. }
  destruct (iter_update_frame n o) as [y' [d E]].
  rewrite E in *. cbn [set_y_dir y] in Hy. unfold bounds.
  cbn [set_y_dir x y w h]. rewrite Hy. reflexivity.
Qed.

(** ** Ticks and resets in any order *)

Lemma fixedPart_set_y_dir (o : MovingObstacle.t) (y' d : Q) :
  fixedPart (set_y_dir o y' d) = fixedPart o.
Proof. reflexivity. Qed.

Lemma fixedPart_update (o : MovingObstacle.t) :
  fixedPart (update o) = fixedPart o.
Proof. destruct (update_frame o) as [y' [d ->]]. reflexivity. Qed.

Lemma new_reset_fixpoint (g : Grid) (tileSize : Q) :
  Level.resetObstacles (Level.new g tileSize) = Level.new g tileSize.
Proof.
  unfold Level.resetObstacles, Level.with_obstacles.
  rewrite (map_ext_in _ (fun o => o)).
  - rewrite map_id. destruct (Level.new g tileSize); reflexivity.
  - intros o Hin.
    destruct (new_obstacles_fresh g tileSize o Hin)
      as [col [row [minRow [maxRow ->]]]].
    reflexivity.
Qed.

Lemma evolves_frame (L0 L : Level.t) :
  evolves L0 L ->
  Level.grid L = Level.grid L0 /\ Level.ts L = Level.ts L0 /\
  Level.start L = Level.start L0 /\
  map fixedPart (Level.obstacles L) = map fixedPart (Level.obstacles L0) /\
  Level.resetObstacles L = Level.resetObstacles L0.
Proof.
  induction 1 as [| L _ IH | L _ IH].
  - repeat split; reflexivity.
  - destruct IH as (Hg & Hts & Hst & Hfix & Hreset).
    split; [exact Hg |]. split; [exact Hts |]. split; [exact Hst |]. split.
    + simpl. rewrite map_map, <- Hfix. apply map_ext. intros o.
      apply fixedPart_update.
    + rewrite <- Hreset.
      unfold Level.resetObstacles, Level.updateObstacles, Level.with_obstacles.
      simpl. rewrite map_map. f_equal. apply map_ext. intros o.
      apply reset_update.
  - destruct IH as (Hg & Hts & Hst & Hfix & Hreset).
    split; [exact Hg |]. split; [exact Hts |]. split; [exact Hst |]. split.
    + simpl. rewrite map_map, <- Hfix. apply map_ext. intros o. reflexivity.
    + rewrite <- Hreset.
      unfold Level.resetObstacles, Level.with_obstacles.
      simpl. rewrite map_map. reflexivity.
Qed.

(** X12.  Ticks and resets, in any order and number, never change the grid,
    the tile size, the start cell, the number of obstacles or any obstacle
    field other than [y] and [dir] (so obstacles only move vertically); and
    a final [resetObstacles] on a Level that came from the constructor
    always gives back the Level exactly as constructed. *)
Theorem ticks_and_resets_only_move_obstacles (L0 L : Level.t) :
  evolves L0 L ->
  Level.grid L = Level.grid L0 /\ Level.ts L = Level.ts L0 /\
  Level.start L = Level.start L0 /\
  length (Level.obstacles L) = length (Level.obstacles L0) /\
  map fixedPart (Level.obstacles L) = map fixedPart (Level.obstacles L0) /\
  map (fun o => (left (bounds o), right (bounds o))) (Level.obstacles L)
  = map (fun o => (left (bounds o), right (bounds o))) (Level.obstacles L0) /\
  (forall g tileSize, L0 = Level.new g tileSize ->
     Level.resetObstacles L = L0).
Proof.
  intros Hev. destruct (evolves_frame L0 L Hev) as (Hg & Hts & Hst & Hfix & Hreset).
  split; [exact Hg |]. split; [exact Hts |]. split; [exact Hst |].
  split; [| split; [exact Hfix | split]].
  - apply (f_equal (@length (list Q))) in Hfix.
    rewrite !length_map in Hfix. exact Hfix.
  - assert (Hside : forall o, (left (bounds o), right (bounds o))
                              = (nth 6 (fixedPart o) 0 - nth 7 (fixedPart o) 0 / 2,
                                 nth 6 (fixedPart o) 0 + nth 7 (fixedPart o) 0 / 2))
      by (intros o; reflexivity).
    rewrite (map_ext _ _ Hside).
    rewrite <- (map_map fixedPart
      (fun f => (nth 6 f 0 - nth 7 f 0 / 2, nth 6 f 0 + nth 7 f 0 / 2))).
    rewrite Hfix, map_map. reflexivity.
  - intros g tileSize ->. rewrite Hreset. apply new_reset_fixpoint.
Qed.

Lemma ticks_and_resets_only_move_obstacles_witness :
  evolves patrolLevel
    (Level.updateObstacles (Level.resetObstacles (Level.updateObstacles patrolLevel))) /\
  Level.resetObstacles
    (Level.updateObstacles (Level.resetObstacles (Level.updateObstacles patrolLevel)))
  = patrolLevel.
Proof.
  assert (Hev : evolves patrolLevel
    (Level.updateObstacles (Level.resetObstacles (Level.updateObstacles patrolLevel))))
    by (apply evolves_update, evolves_reset, evolves_update, evolves_refl).
  split; [exact Hev |].
  destruct (ticks_and_resets_only_move_obstacles _ _ Hev)
    as (_ & _ & _ & _ & _ & _ & Hback).
  apply (Hback patrolGrid 10). reflexivity.
Defined.

(** ** Level entries *)

Lemma copyGrid_arrays (g : Grid) : copyGrid (VArr (map VArr g)) = Some g.
Proof.
  unfold copyGrid. induction g as [| line g IH]; [reflexivity |].
  simpl in *. rewrite IH. reflexivity.
Qed.

(** X13.  The two level formats load alike: an object whose [grid] field
    holds a grid gives the same Level as the bare grid, whatever other
    fields the object has, and that Level is the one the constructor builds
    from the grid with tile size 32. *)
Theorem object_entry_loads_like_bare_grid
    (fields : list (string * value)) (g : Grid) :
  lookupField "grid" fields = Some (VArr (map VArr g)) ->
  loadEntry (VObj fields) = Some (Level.new g 32) /\
  loadEntry (VArr (map VArr g)) = Some (Level.new g 32).
Proof.
  intros Hgrid. pose proof (copyGrid_arrays g) as Hcopy.
  unfold copyGrid in Hcopy. unfold loadEntry, copyGrid. simpl.
  rewrite Hgrid. simpl. rewrite Hcopy. split; reflexivity.
Qed.

Lemma object_entry_loads_like_bare_grid_witness :
  lookupField "grid"
    [("name", VStr "one"); ("grid", VArr (map VArr patrolGrid))]
  = Some (VArr (map VArr patrolGrid)) /\
  loadEntry (VObj [("name", VStr "one"); ("grid", VArr (map VArr patrolGrid))])
  = Some (Level.new patrolGrid 32).
Proof.
  split; [reflexivity |].
  apply (object_entry_loads_like_bare_grid
           [("name", VStr "one"); ("grid", VArr (map VArr patrolGrid))]
           patrolGrid eq_refl).
Defined.

(** X14.  An object whose [grid] field is present but falsy (null, false,
    0 or the empty string) is also answered with the fallback Level of the
    2 by 2 wall grid. *)
Theorem falsy_grid_falls_back (fields : list (string * value)) (G : value) :
  lookupField "grid" fields = Some G ->
  truthy G = false ->
  loadEntry (VObj fields) = Some (Level.new fallbackGrid TS).
Proof.
  intros Hgrid Hfalsy. unfold loadEntry. simpl. rewrite Hgrid. simpl.
  rewrite Hfalsy. reflexivity.
Qed.

Lemma falsy_grid_falls_back_witness :
  lookupField "grid" [("grid", VNull)] = Some VNull /\
  truthy VNull = false /\
  loadEntry (VObj [("grid", VNull)]) = Some (Level.new fallbackGrid TS).
Proof.
  split; [reflexivity |]. split; [reflexivity |].
  apply (falsy_grid_falls_back [("grid", VNull)] VNull eq_refl eq_refl).
Defined.

(** X15.  For an entry that is an array of arrays, or an object, null or
    primitive whose [grid], if truthy, is an array of arrays, [setup]'s
    callback raises no error and returns a Level built by the constructor
    with tile size 32: a fresh Level, which [resetObstacles] leaves as it
    is and of which all that holds of reachable Levels holds. *)
Theorem loaded_level_is_reachable (levelEntry : value) :
  (isArray levelEntry = true ->
   exists g : Grid, levelEntry = VArr (map VArr g)) ->
  (isArray levelEntry = false -> truthy (getGrid levelEntry) = true ->
   exists g : Grid, getGrid levelEntry = VArr (map VArr g)) ->
  exists (L : Level.t) (g : Grid),
    loadEntry levelEntry = Some L /\
    L = Level.new g 32 /\
    Level.ts L = 32 /\ reachable L /\ Level.resetObstacles L = L.
Proof.
  intros Harr Hobj.
  assert (Hnew : forall g,
            Level.new g TS = Level.new g 32 /\
            Level.ts (Level.new g TS) = 32 /\
            reachable (Level.new g TS) /\
            Level.resetObstacles (Level.new g TS) = Level.new g TS).
  { intros g. split; [reflexivity |]. split; [apply new_ts |].
    split; [apply reach_new; reflexivity | apply new_reset_fixpoint]. }
  unfold loadEntry.
  destruct (isArray levelEntry) eqn:Hkind.
  - destruct (Harr eq_refl) as [g ->]. rewrite copyGrid_arrays.
    exists (Level.new g TS), g. split; [reflexivity | apply Hnew].
  - destruct (truthy (getGrid levelEntry)) eqn:Hgrid.
    + destruct (Hobj eq_refl eq_refl) as [g Hg].
      assert (Hentry : truthy levelEntry = true).
      { destruct levelEntry; simpl in Hgrid; try discriminate; reflexivity. }
      rewrite Hentry, Hg. simpl (true && _).
      cbv iota. rewrite copyGrid_arrays.
      exists (Level.new g TS), g. split; [reflexivity | apply Hnew].
    + rewrite Bool.andb_false_r.
      exists (Level.new fallbackGrid TS), fallbackGrid.
      split; [reflexivity | apply Hnew].
Qed.

Lemma loaded_level_is_reachable_witness :
  exists (L : Level.t) (g : Grid),
    loadEntry (VObj [("grid", VArr (map VArr patrolGrid))]) = Some L /\
    L = Level.new g 32 /\ reachable L.
Proof.
  destruct (loaded_level_is_reachable
              (VObj [("grid", VArr (map VArr patrolGrid))]))
    as [L [g [Hload [Hnew [_ [Hreach _]]]]]].
  - discriminate.
  - intros _ _. exists patrolGrid. reflexivity.
  - exists L, g. split; [exact Hload |]. split; [exact Hnew | exact Hreach].
Defined.

(** ** The player's box *)

(** X16.  In a reachable Level the collision test against the box that
    [draw] builds around the player's pixel center is true exactly when
    some obstacle's center is, on both axes, no further from the player's
    center than 0.3 of the player's tile size plus 0.4 of the obstacle's:
    0.7 tile when both sizes agree. *)
Theorem collision_is_center_distance
    (L : Level.t) (px py pts : Q) :
  reachable L ->
  (Level.checkObstacleCollision L (playerRect px py pts) = true <->
   exists o, In o (Level.obstacles L) /\
     - (0.3 * pts + 0.4 * ts o) <= px - x o <= 0.3 * pts + 0.4 * ts o /\
     - (0.3 * pts + 0.4 * ts o) <= py - y o <= 0.3 * pts + 0.4 * ts o).
Proof.
  intros Hreach. unfold Level.checkObstacleCollision. rewrite hitsAny_true.
  assert (Hp : pts * 0.6 / 2 == 0.3 * pts) by field.
  assert (Hbox : forall o, In o (Level.obstacles L) ->
            (overlaps (playerRect px py pts) (bounds o) <->
             - (0.3 * pts + 0.4 * ts o) <= px - x o <= 0.3 * pts + 0.4 * ts o /\
             - (0.3 * pts + 0.4 * ts o) <= py - y o <= 0.3 * pts + 0.4 * ts o)).
  { intros o Hin.
    destruct (reachable_patrolling L Hreach o Hin)
      as (_ & _ & _ & Hw & Hh & _).
    unfold overlaps, playerRect. cbn [bounds left right top bottom].
    rewrite Hw, Hh.
    assert (Ho : ts o * 0.8 / 2 == 0.4 * ts o) by field.
    split; intros H; repeat split; lra. }
  split; intros [o [Hin H]]; exists o; (split; [exact Hin |]);
    apply (Hbox o Hin); exact H.
Qed.

Lemma collision_is_center_distance_witness :
  reachable patrolLevel /\
  Level.checkObstacleCollision patrolLevel (playerRect 25 32 10) = true.
Proof.
  assert (Hreach : reachable patrolLevel) by (apply reach_new; reflexivity).
  split; [exact Hreach |].
  apply (collision_is_center_distance patrolLevel 25 32 10 Hreach).
  exists patrolObstacle. split; [vm_compute; left; reflexivity |].
  split; split; vm_compute; discriminate.
Defined.

(** ** Loading and switching levels *)

Lemma pixelWidth_nonempty (L : Level.t) :
  Level.grid L <> [] ->
  Level.pixelWidth L = Some (num (Level.width (Level.grid L)) * Level.ts L).
Proof.
  intros Hne. unfold Level.pixelWidth. rewrite (cols_nonempty L Hne).
  reflexivity.
Qed.

Lemma pixelWidth_None (L : Level.t) :
  Level.pixelWidth L = None <-> Level.grid L = [].
Proof.
  unfold Level.pixelWidth, Level.cols.
  destruct (Level.grid L) as [| line rest]; simpl; split; congruence.
Qed.

(** X17.  [loadLevel(idx)] fails exactly when there is no level at [idx] or
    that level has an empty grid.  Otherwise it makes [idx] the current
    level, puts the player on the level's start cell, or on cell (1, 1)
    when the level has none, keeps the player's tile size, sizes the canvas
    to the level, resets the obstacles of that level and leaves every other
    level as it was. *)
Theorem loadLevel_effect (idx : nat) (G : Game) :
  (loadLevel idx G = None <->
   levels G !! idx = None \/
   exists level, levels G !! idx = Some level /\ Level.grid level = []) /\
  (forall G', loadLevel idx G = Some G' ->
     exists level,
       levels G !! idx = Some level /\
       li G' = idx /\
       (Player.r (player G'), Player.c (player G'))
       = default (1%nat, 1%nat) (Level.start level) /\
       Player.ts (player G') = Player.ts (player G) /\
       Some (fst (canvas G')) = Level.pixelWidth level /\
       snd (canvas G') = Level.pixelHeight level /\
       levels G' !! idx = Some (Level.resetObstacles level) /\
       (forall j, j <> idx -> levels G' !! j = levels G !! j) /\
       length (levels G') = length (levels G)).
Proof.
  unfold loadLevel.
  destruct (levels G !! idx) as [level |] eqn:Hlevel.
  - destruct (Level.pixelWidth level) as [width |] eqn:Hwidth.
    + split.
      * split; [discriminate |].
        intros [Hnone | [level' [[= <-] Hnil]]]; [discriminate |].
        apply pixelWidth_None in Hnil. congruence.
      * intros G' [= <-]. exists level. simpl.
        split; [reflexivity |]. split; [reflexivity |].
        split; [destruct (Level.start level) as [[r c] |]; reflexivity |].
        split; [destruct (Level.start level) as [[r c] |]; reflexivity |].
        split; [symmetry; exact Hwidth |]. split; [reflexivity |].
        split; [apply list_lookup_insert_eq, (lookup_lt_Some _ _ _ Hlevel) |].
        split; [| apply length_insert].
        intros j Hj. apply list_lookup_insert_ne. congruence.
    + split; [| discriminate].
      split; [| reflexivity]. intros _. right. exists level.
      split; [reflexivity | apply pixelWidth_None; exact Hwidth].
  - split; [| discriminate].
    split; [intros _; left; reflexivity | reflexivity].
Qed.

Lemma loadLevel_Some (idx : nat) (G : Game) (level : Level.t) :
  levels G !! idx = Some level ->
  Level.grid level <> [] ->
  loadLevel idx G =
  Some {| levels := <[idx := Level.resetObstacles level]> (levels G);
          li := idx;
          player := match Level.start level with
                    | Some (r, c) => Player.setCell (player G) r c
                    | None => Player.setCell (player G) 1 1
                    end;
          canvas := (num (Level.width (Level.grid level)) * Level.ts level,
                     Level.pixelHeight level) |}.
Proof.
  intros Hlevel Hne. unfold loadLevel.
  rewrite Hlevel, (pixelWidth_nonempty level Hne). reflexivity.
Qed.

Lemma playable_insert (G : Game) (idx : nat) (level : Level.t) :
  playable G -> Level.grid level <> [] ->
  Forall (fun L => Level.grid L <> []) (<[idx := level]> (levels G)).
Proof.
  intros Hplay Hne. apply Forall_insert; assumption.
Qed.

Lemma nextLevel_step (G : Game) :
  levels G <> [] -> playable G ->
  exists G',
    nextLevel G = Some G' /\
    li G' = ((li G + 1) mod length (levels G))%nat /\
    length (levels G') = length (levels G) /\
    playable G'.
Proof.
  intros Hne Hplay. unfold nextLevel.
  destruct (length (levels G)) as [| n] eqn:Hlen.
  - destruct (levels G); [congruence | discriminate].
  - rewrite <- Hlen.
    assert (Hidx : ((li G + 1) mod length (levels G) < length (levels G))%nat)
      by (apply Nat.mod_upper_bound; lia).
    destruct (lookup_lt_is_Some_2 _ _ Hidx) as [level Hlevel].
    assert (Hgrid : Level.grid level <> []).
    { unfold playable in Hplay. rewrite Forall_forall in Hplay.
      apply Hplay, list_elem_of_lookup. eexists. exact Hlevel. }
    rewrite (loadLevel_Some _ G level Hlevel Hgrid).
    eexists. split; [reflexivity |]. simpl.
    split; [reflexivity |]. split; [apply length_insert |].
    unfold playable. simpl. apply playable_insert; assumption.
Qed.

(** X18.  In a game with at least one level and no level with an empty
    grid, [nextLevel] never fails and steps the current index cyclically:
    [k] calls from index [li] end at [(li + k) mod n] for [n] levels, so the
    index wraps from the last level to the first and [n] calls come back to
    the level they started from. *)
Theorem nextLevel_cycles (G : Game) (k : nat) :
  (li G < length (levels G))%nat ->
  playable G ->
  exists G',
    nextLevels k G = Some G' /\
    li G' = ((li G + k) mod length (levels G))%nat /\
    (li G' < length (levels G))%nat /\
    length (levels G') = length (levels G) /\
    (k = length (levels G) -> li G' = li G).
Proof.
  intros Hli Hplay.
  assert (Hne : levels G <> []) by (destruct (levels G); simpl in *; [lia | discriminate]).
  assert (Hn : length (levels G) <> O) by lia.
  assert (Hk : exists G',
            nextLevels k G = Some G' /\
            li G' = ((li G + k) mod length (levels G))%nat /\
            length (levels G') = length (levels G) /\ playable G').
  { induction k as [| k IH]; simpl.
    - exists G. split; [reflexivity |].
      rewrite Nat.add_0_r, Nat.mod_small by exact Hli.
      split; [reflexivity |]. split; [reflexivity | exact Hplay].
    - destruct IH as [G1 [-> [Hli1 [Hlen1 Hplay1]]]].
      assert (Hne1 : levels G1 <> [])
        by (destruct (levels G1); simpl in *; [lia | discriminate]).
      destruct (nextLevel_step G1 Hne1 Hplay1) as [G2 [Hnext [Hli2 [Hlen2 Hplay2]]]].
      exists G2. split; [exact Hnext |].
      split; [| split; [congruence | exact Hplay2]].
      rewrite Hli2, Hli1, Hlen1.
      rewrite Nat.Div0.add_mod_idemp_l. f_equal. lia. }
  destruct Hk as [G' [Hrun [Hidx [Hlen _]]]].
  exists G'. split; [exact Hrun |]. split; [exact Hidx |].
  split; [rewrite Hidx; apply Nat.mod_upper_bound; exact Hn |].
  split; [exact Hlen |].
  intros ->. rewrite Hidx.
  replace (li G + length (levels G))%nat
    with (li G + 1 * length (levels G))%nat by lia.
  rewrite Nat.Div0.mod_add. apply Nat.mod_small. exact Hli.
Qed.

Lemma nextLevel_cycles_witness :
  (li sampleGame < length (levels sampleGame))%nat /\
  playable sampleGame /\
  exists G', nextLevels 3 sampleGame = Some G' /\ li G' = 1%nat.
Proof.
  assert (Hli : (li sampleGame < length (levels sampleGame))%nat)
    by (simpl; lia).
  assert (Hplay : playable sampleGame).
  { unfold playable, sampleGame, levels.
    repeat constructor; vm_compute; discriminate. }
  split; [exact Hli |]. split; [exact Hplay |].
  destruct (nextLevel_cycles sampleGame 3 Hli Hplay)
    as [G' [Hrun [Hidx _]]].
  exists G'. split; [exact Hrun | exact Hidx].
Defined.

(** ** One frame *)

Lemma hitsAny_false_separated (p : Rect) (os : list MovingObstacle.t) :
  Level.hitsAny p os = false ->
  forall o, In o os -> separated p (bounds o).
Proof.
  intros Hmiss o Hin.
  destruct (Level.rejected p (bounds o)) eqn:Hrej;
    [apply rejected_true; exact Hrej |].
  assert (Hhit : Level.hitsAny p os = true).
  { apply hitsAny_true. exists o. split; [exact Hin |].
    apply rejected_false. exact Hrej. }
  congruence.
Qed.

Lemma new_grid_nonempty (g : Grid) (tileSize : Q) :
  g <> [] -> Level.grid (Level.new g tileSize) <> [].
Proof.
  intros Hne Hnil. pose proof (shape_length _ _ (new_shape g tileSize)) as Hlen.
  rewrite Hnil in Hlen. destruct g; [congruence | discriminate].
Qed.

(** X19.  One frame of [draw] on a current Level that came from the
    constructor (with a grid that is not empty) and has since been ticked
    and reset never fails and touches no other level.  If the moved
    obstacles hit the player's box, the current Level is back exactly as
    constructed and the player stands on its start cell, or on (1, 1) when
    it has none.  If they do not, the Level has just advanced by one tick,
    the player is as before, and every obstacle box is separated from the
    player's box. *)
Theorem frame_restarts_level_on_collision
    (G : Game) (g : Grid) (tileSize : Q) (L : Level.t) (px py : Q) :
  levels G !! li G = Some L ->
  evolves (Level.new g tileSize) L ->
  g <> [] ->
  let hit := Level.checkObstacleCollision (Level.updateObstacles L)
               (playerRect px py (Player.ts (player G))) in
  exists G',
    draw px py G = Some G' /\
    li G' = li G /\
    (forall j, j <> li G -> levels G' !! j = levels G !! j) /\
    (hit = true ->
     levels G' !! li G = Some (Level.new g tileSize) /\
     (Player.r (player G'), Player.c (player G'))
     = default (1%nat, 1%nat) (Level.start (Level.new g tileSize))) /\
    (hit = false ->
     levels G' !! li G = Some (Level.updateObstacles L) /\
     player G' = player G /\
     forall o, In o (Level.obstacles (Level.updateObstacles L)) ->
       separated (playerRect px py (Player.ts (player G))) (bounds o)).
Proof.
  intros Hcur Hev Hne hit.
  pose proof (lookup_lt_Some _ _ _ Hcur) as Hlt.
  pose proof (evolves_update _ _ Hev) as Hev'.
  destruct (evolves_frame _ _ Hev') as (Hg & _ & Hst & _ & Hreset).
  rewrite new_reset_fixpoint in Hreset. simpl in Hst.
  unfold draw. rewrite Hcur. fold hit.
  destruct hit eqn:Hhit.
  - set (G1 := {| levels := <[li G := Level.updateObstacles L]> (levels G);
                  li := li G; player := player G; canvas := canvas G |}).
    assert (Hcur1 : levels G1 !! li G = Some (Level.updateObstacles L))
      by (apply list_lookup_insert_eq; exact Hlt).
    assert (Hgrid1 : Level.grid (Level.updateObstacles L) <> [])
      by (rewrite Hg; apply new_grid_nonempty; exact Hne).
    rewrite (loadLevel_Some _ G1 _ Hcur1 Hgrid1).
    eexists. split; [reflexivity |]. simpl.
    split; [reflexivity |]. split; [| split; [| discriminate]].
    + intros j Hj. rewrite !list_lookup_insert_ne by congruence. reflexivity.
    + intros _. rewrite Hreset, Hst. split.
      * apply list_lookup_insert_eq. rewrite length_insert. exact Hlt.
      * destruct (Level.start (Level.new g tileSize)) as [[r c] |]; reflexivity.
  - eexists. split; [reflexivity |]. simpl.
    split; [reflexivity |]. split; [| split; [discriminate |]].
    + intros j Hj. rewrite list_lookup_insert_ne by congruence. reflexivity.
    + intros _. split; [apply list_lookup_insert_eq; exact Hlt |].
      split; [reflexivity |].
      apply hitsAny_false_separated. exact Hhit.
Qed.

Lemma frame_restarts_level_on_collision_witness :
  levels sampleGame !! li sampleGame = Some patrolLevel /\
  evolves (Level.new patrolGrid 10) patrolLevel /\
  patrolGrid <> [] /\
  exists G', draw 25 32 sampleGame = Some G' /\
             levels G' !! O = Some (Level.new patrolGrid 10).
Proof.
  assert (Hcur : levels sampleGame !! li sampleGame = Some patrolLevel)
    by reflexivity.
  assert (Hev : evolves (Level.new patrolGrid 10) patrolLevel)
    by apply evolves_refl.
  assert (Hne : patrolGrid <> []) by discriminate.
  split; [exact Hcur |]. split; [exact Hev |]. split; [exact Hne |].
  destruct (frame_restarts_level_on_collision sampleGame patrolGrid 10
              patrolLevel 25 32 Hcur Hev Hne)
    as [G' [Hdraw [_ [_ [Hhit _]]]]].
  exists G'. split; [exact Hdraw |].
  apply Hhit. vm_compute. reflexivity.
Defined.

(** ** Keys *)

(** X20.  A key press is turned into a move of exactly one cell along one
    axis, never a diagonal and never a null move, and into no move at all
    exactly when the key code is none of the four arrows and the key is
    none of the letters a, d, w, s in either case.  Left (the left arrow,
    a or A) is tested first, then right, up and down, and the first test
    that holds decides the direction [(dr, dc)]. *)
Theorem key_moves_one_cell
    (LEFT_ARROW RIGHT_ARROW UP_ARROW DOWN_ARROW keyCode : Z) (key : string) :
  let move := moveDirection LEFT_ARROW RIGHT_ARROW UP_ARROW DOWN_ARROW
                keyCode key in
  let isLeft := keyCode = LEFT_ARROW \/ key = "a"%string \/ key = "A"%string in
  let isRight := keyCode = RIGHT_ARROW \/ key = "d"%string \/ key = "D"%string in
  let isUp := keyCode = UP_ARROW \/ key = "w"%string \/ key = "W"%string in
  let isDown := keyCode = DOWN_ARROW \/ key = "s"%string \/ key = "S"%string in
  (forall dr dc, move = Some (dr, dc) -> (Z.abs dr + Z.abs dc = 1)%Z) /\
  (move = None <-> ~ isLeft /\ ~ isRight /\ ~ isUp /\ ~ isDown) /\
  (move = Some (0, -1)%Z <-> isLeft) /\
  (move = Some (0, 1)%Z <-> ~ isLeft /\ isRight) /\
  (move = Some (-1, 0)%Z <-> ~ isLeft /\ ~ isRight /\ isUp) /\
  (move = Some (1, 0)%Z <-> ~ isLeft /\ ~ isRight /\ ~ isUp /\ isDown).
Proof.
  intros move isLeft isRight isUp isDown.
  assert (Htest : forall (code : Z) (lower upper : string),
            (keyCode =? code)%Z || String.eqb key lower || String.eqb key upper
            = true <-> keyCode = code \/ key = lower \/ key = upper).
  { intros code lower upper.
    rewrite !Bool.orb_true_iff, Z.eqb_eq, !String.eqb_eq. tauto. }
  assert (Hnone : forall (code : Z) (lower upper : string),
            (keyCode =? code)%Z || String.eqb key lower || String.eqb key upper
            = false <-> ~ (keyCode = code \/ key = lower \/ key = upper)).
  { intros code lower upper. rewrite <- Htest.
    destruct (_ || _ || _); split; congruence. }
  subst move. unfold moveDirection.
  destruct ((keyCode =? LEFT_ARROW)%Z || String.eqb key "a" || String.eqb key "A")
    eqn:Hleft.
  { apply Htest in Hleft. fold isLeft in Hleft.
    split; [intros dr dc [= <- <-]; reflexivity |].
    repeat split; try discriminate; try tauto; try (intros _; reflexivity). }
  apply Hnone in Hleft. fold isLeft in Hleft.
  destruct ((keyCode =? RIGHT_ARROW)%Z || String.eqb key "d" || String.eqb key "D")
    eqn:Hright.
  { apply Htest in Hright. fold isRight in Hright.
    split; [intros dr dc [= <- <-]; reflexivity |].
    repeat split; try discriminate; try tauto; try (intros _; reflexivity). }
  apply Hnone in Hright. fold isRight in Hright.
  destruct ((keyCode =? UP_ARROW)%Z || String.eqb key "w" || String.eqb key "W")
    eqn:Hup.
  { apply Htest in Hup. fold isUp in Hup.
    split; [intros dr dc [= <- <-]; reflexivity |].
    repeat split; try discriminate; try tauto; try (intros _; reflexivity). }
  apply Hnone in Hup. fold isUp in Hup.
  destruct ((keyCode =? DOWN_ARROW)%Z || String.eqb key "s" || String.eqb key "S")
    eqn:Hdown.
  { apply Htest in Hdown. fold isDown in Hdown.
    split; [intros dr dc [= <- <-]; reflexivity |].
    repeat split; try discriminate; try tauto; try (intros _; reflexivity). }
  apply Hnone in Hdown. fold isDown in Hdown.
  split; [discriminate |].
  repeat split; try discriminate; try tauto.
Qed.
